(** * Trello to Clubhouse migration: export (normalizer, attachment
      relocation) and import (story creation)

    A shallow embedding of [export.go] and [import.go].  Go strings are
    byte strings ([string]); slices are lists; [*time.Time] is
    [option Time]; [map[string]string] is [gmap string string]; a call
    returning [(T, error)] is a pair [T * option error].  Remote services
    (Clubhouse, Dropbox, the HTTP download) live in an explicit [World]
    threaded through a small state-and-crash monad. *)

From Stdlib Require Import ZArith Ascii String List Bool Lia DecimalString.
From Stdlib Require Import DecimalPos DecimalZ.
From stdpp Require Import gmap strings list.

Local Open Scope string_scope.
Local Open Scope Z_scope.
Local Open Scope list_scope.

(** ** Go values *)

(** [error]: only its presence is ever inspected; the text is kept. *)
Definition error := string.

(** [time.Time], as its UTC calendar fields. *)
Record Time := mkTime {
  year : Z; month : Z; day : Z;
  hour : Z; minute : Z; second : Z; nanosecond : Z
}.

(** [float32], as its bit pattern: the code only copies it. *)
Definition float32 := Z.

(** ** The trello client's types (fields read by the export) *)
Module trello.
Record Member := { Id : string; FullName : string }.
Record ActionData := { Text : string }.
Record Action := {
  Type_ : string; Data : ActionData; MemberCreator : Member; Date : string
}.
Record ChecklistItem := { ItemName : string; State : string }.
Record Checklist := { ListName : string; CheckItems : list ChecklistItem }.
Record Label := { LabelName : string }.
Record Attachment := { AttName : string; Url : string }.
(** A card, with what its remote queries [Actions()], [Checklists()]
    and [Attachments()] answer. *)
Record Card := {
  CardId : string; IdList : string;
  Name : string; Desc : string; Due : string; Pos : float32;
  ShortUrl : string; IdMembers : list string; Labels : list Label;
  Actions : list Action * option error;
  Checklists : list Checklist * option error;
  Attachments : list Attachment * option error
}.
End trello.

(** ** The intermediate representation *)
Module Task.
Record t := mk { Completed : bool; Description : string }.
End Task.

Module Comment.
Record t := mk {
  Text : string; IDCreator : string; CreatorName : string;
  CreatedAt : option Time
}.
End Comment.

Module Card.
Record t := mk {
  Name : string; Desc : string; Labels : list string;
  DueDate : option Time; IDCreator : string; IDOwners : list string;
  CreatedAt : option Time; Comments : list Comment.t;
  Tasks : list Task.t; Position : float32; ShortURL : string;
  Attachments : gmap string string
}.
End Card.

Definition dateLayout : string := "2006-01-02T15:04:05.000Z".

(** ** File name sanitization *)

Definition between (lo hi c : ascii) : bool :=
  ((N_of_ascii lo <=? N_of_ascii c) && (N_of_ascii c <=? N_of_ascii hi))%N.

(** The character class of [safeFileNameRegexp], [[^a-zA-Z0-9_.]].  Every
    byte of a multi-byte rune is 128 or more and so in the class, hence
    runs of runes and runs of bytes coincide. *)
Definition safeFileNameClass (c : ascii) : bool :=
  negb (between "a" "z" c || between "A" "Z" c || between "0" "9" c
        || Ascii.eqb c "_" || Ascii.eqb c ".").
Arguments safeFileNameClass : simpl never.

(** [regexp.ReplaceAllString] for a pattern [[class]+]: scanning left to
    right, each leftmost-longest match is replaced by [repl]; [inMatch]
    tells that the current match has already been replaced. *)
Fixpoint replaceRuns (class : ascii -> bool) (repl : string)
    (inMatch : bool) (s : string) : string :=
  match s with
  | EmptyString => EmptyString
  | String c r =>
      if class c then
        if inMatch then replaceRuns class repl true r
        else repl +:+ replaceRuns class repl true r
      else String c (replaceRuns class repl false r)
  end.

Definition safeFileNameRegexp_ReplaceAllString (src repl : string) : string :=
  replaceRuns safeFileNameClass repl false src.

(** [name := safeFileNameRegexp.ReplaceAllString(f.Name, "_")] *)
Definition sanitize (name : string) : string :=
  safeFileNameRegexp_ReplaceAllString name "_".

(** The words of the specification: the maximal runs of a string, each
    tagged with whether its characters are in the class. *)
Fixpoint maximal_runs (s : string) : list (bool * string) :=
  match s with
  | EmptyString => []
  | String c r =>
      match maximal_runs r with
      | (b, blk) :: rest =>
          if Bool.eqb b (safeFileNameClass c)
          then (b, String c blk) :: rest
          else (safeFileNameClass c, String c EmptyString) :: (b, blk) :: rest
      | [] => [(safeFileNameClass c, String c EmptyString)]
      end
  end.

Fixpoint flatten (l : list string) : string :=
  match l with
  | [] => EmptyString
  | s :: r => s +:+ flatten r
  end.

(** A run outside the set becomes one underscore; the others stay. *)
Definition run_image (r : bool * string) : string :=
  let '(b, blk) := r in if b : bool then "_" else blk.

Definition sanitize_spec (name : string) : string :=
  flatten (map run_image (maximal_runs name)).

Fixpoint all_chars (p : ascii -> bool) (s : string) : bool :=
  match s with
  | EmptyString => true
  | String c r => p c && all_chars p r
  end.

(** A run: non-empty, every character on the side [b] of the class. *)
Definition is_run (r : bool * string) : Prop :=
  snd r <> EmptyString /\
  all_chars (fun c => Bool.eqb (safeFileNameClass c) (fst r)) (snd r) = true.

(** Neighbouring runs are of different kinds: each run is maximal. *)
Fixpoint alternating (l : list (bool * string)) : Prop :=
  match l with
  | r1 :: ((r2 :: _) as tl) => fst r1 <> fst r2 /\ alternating tl
  | _ => True
  end.

(** ** The clubhouse client's types (fields used by the import) *)
Module ch.
Module Story.
Record t := mk { ID : Z; Name : string; ProjectID : Z }.
End Story.
Module CreateComment.
Record t := mk { CreatedAt : Time; AuthorID : string; Text : string }.
End CreateComment.
Module CreateTask.
Record t := mk { Complete : bool; Description : string }.
End CreateTask.
Module CreateLabel.
Record t := mk { Name : string }.
End CreateLabel.
Module CreateLinkedFile.
Record t := mk {
  Name : string; Type_ : string; URL : string; UploaderID : string
}.
End CreateLinkedFile.
Module LinkedFile.
Record t := mk { ID : Z; Name : string; URL : string }.
End LinkedFile.
Module CreateStory.
Record t := mk {
  ProjectID : Z; WorkflowStateID : Z; RequestedByID : string;
  OwnerIds : list string; StoryType : string;
  FollowerIds : list string; FileIds : list Z;
  Name : string; Description : string;
  Deadline : option Time; CreatedAt : option Time;
  Labels : list CreateLabel.t; Tasks : list CreateTask.t;
  Comments : list CreateComment.t; LinkedFileIds : list Z
}.
End CreateStory.
End ch.

(** The run configuration read by the import and by the export. *)
Record ClubhouseOptions := {
  Project_ID : Z; State_ID : Z; ImportMember_ID : string;
  StoryType : string; AddCommentWithTrelloLink : bool
}.

Record TrelloOptions := { ProcessImages : bool }.

(** ** Dropbox sharing requests and answers *)
Record DropboxShareReq := { Path : string }.
Record DropboxShareLink := { URL : string; PathLower : string }.
Record DropboxShareLinks := { Links : list DropboxShareLink }.
Record UploadOutput := { PathDisplay : string }.

(** What [call] decodes from an answer ([interface{}]). *)
Inductive Reply :=
  | NoReply
  | ReplyLinks (l : DropboxShareLinks)
  | ReplyLink (l : DropboxShareLink)
  | ReplyError (e : string).

(** ** The world outside the process *)
Record World := mkWorld {
  stories : list ch.Story.t;          (* Clubhouse: all stories *)
  next_story : Z;                     (* the next story id it hands out *)
  linked_files : list ch.LinkedFile.t;
  next_file : Z;
  dropbox_files : gmap string string; (* Dropbox: path to content *)
  shared_links : list DropboxShareLink;
  web : gmap string string;           (* attachment url to its bytes *)
  faults : list bool;                 (* which of the coming remote calls fail *)
  clock : nat -> Time;                (* what time.Now() answers, call by call *)
  ticks : nat;
  console : list string               (* lines printed so far, oldest first *)
}.

Definition set_stories (l : list ch.Story.t) (n : Z) (w : World) : World :=
  mkWorld l n (linked_files w) (next_file w) (dropbox_files w)
    (shared_links w) (web w) (faults w) (clock w) (ticks w) (console w).

Definition set_linked_files (l : list ch.LinkedFile.t) (n : Z) (w : World) : World :=
  mkWorld (stories w) (next_story w) l n (dropbox_files w)
    (shared_links w) (web w) (faults w) (clock w) (ticks w) (console w).

Definition set_dropbox_files (m : gmap string string) (w : World) : World :=
  mkWorld (stories w) (next_story w) (linked_files w) (next_file w) m
    (shared_links w) (web w) (faults w) (clock w) (ticks w) (console w).

Definition set_shared_links (l : list DropboxShareLink) (w : World) : World :=
  mkWorld (stories w) (next_story w) (linked_files w) (next_file w)
    (dropbox_files w) l (web w) (faults w) (clock w) (ticks w) (console w).

Definition set_faults (l : list bool) (w : World) : World :=
  mkWorld (stories w) (next_story w) (linked_files w) (next_file w)
    (dropbox_files w) (shared_links w) (web w) l (clock w) (ticks w)
    (console w).

Definition set_ticks (n : nat) (w : World) : World :=
  mkWorld (stories w) (next_story w) (linked_files w) (next_file w)
    (dropbox_files w) (shared_links w) (web w) (faults w) (clock w) n
    (console w).

Definition set_console (l : list string) (w : World) : World :=
  mkWorld (stories w) (next_story w) (linked_files w) (next_file w)
    (dropbox_files w) (shared_links w) (web w) (faults w) (clock w)
    (ticks w) l.

(** ** Computations: state passing, with the two ways a run stops early *)
Inductive crash :=
  | NilDereference   (* runtime panic: nil pointer dereference *)
  | FatalExit.       (* log.Fatal: the process exits *)

Inductive result (A : Type) :=
  | Ok (a : A)
  | Crash (c : crash).
Arguments Ok {A} a.
Arguments Crash {A} c.

Definition M (A : Type) : Type := World -> World * result A.

Definition ret {A} (a : A) : M A := fun w => (w, Ok a).

Definition bind {A B} (m : M A) (k : A -> M B) : M B :=
  fun w => match m w with
           | (w', Ok a) => k a w'
           | (w', Crash c) => (w', Crash c)
           end.

Definition stop {A} (c : crash) : M A := fun w => (w, Crash c).

Notation "'let*' x ':=' m 'in' k" := (bind m (fun x => k))
  (at level 10, x name, m at level 100, k at level 200).
Notation "'let*' ' p ':=' m 'in' k" :=
  (bind m (fun x => match x with p => k end))
  (at level 10, p pattern, m at level 100, k at level 200).
Notation "'exec' m 'in' k" := (bind m (fun _ => k))
  (at level 10, m at level 100, k at level 200).

(** [*p]: a nil pointer panics. *)
Definition deref {A} (p : option A) : M A :=
  match p with
  | Some a => ret a
  | None => stop NilDereference
  end.

(** [for _, x := range l { body x }] *)
Fixpoint for_each {A} (l : list A) (body : A -> M unit) : M unit :=
  match l with
  | [] => ret tt
  | x :: r => exec body x in for_each r body
  end.

Definition print (line : string) : M unit :=
  fun w => (set_console (console w ++ [line]) w, Ok tt).

(** [log.Fatal] and [log.Fatalf]: print (the logger's time prefix is left
    out), then exit. *)
Definition log_Fatal {A} (line : string) : M A :=
  exec print line in stop FatalExit.

(** [time.Now()] *)
Definition time_Now : M Time :=
  fun w => (set_ticks (S (ticks w)) w, Ok (clock w (ticks w))).

(** Whether the remote call about to be made fails. *)
Definition remote_fails : M bool :=
  fun w => match faults w with
           | [] => (w, Ok false)
           | b :: r => (set_faults r w, Ok b)
           end.

(** ** Formatting *)
Definition newline : string := String (ascii_of_nat 10) EmptyString.

Definition fmt_d (z : Z) : string := NilZero.string_of_int (Z.to_int z).

Fixpoint spaces (n : nat) : string :=
  match n with
  | O => EmptyString
  | S k => String " " (spaces k)
  end.

(** [%-Ns]: left-justified in a field of width [n] (widths count bytes
    here; Go counts runes). *)
Definition padRight (n : nat) (s : string) : string :=
  s +:+ spaces (n - String.length s).

(** [outputFormat = "%-40s %-17s %s\n"] *)
Definition outputFormat (a b c : string) : string :=
  padRight 40 a +:+ " " +:+ padRight 17 b +:+ " " +:+ c +:+ newline.

(** ** The Clubhouse service, as the client sees it *)
Definition zeroStory : ch.Story.t := ch.Story.mk 0 "" 0.
Definition zeroLinkedFile : ch.LinkedFile.t := ch.LinkedFile.mk 0 "" "".

Definition ListStories (projectID : Z) : M (list ch.Story.t * option error) :=
  let* f := remote_fails in
  if f : bool then ret ([], Some "list stories: request failed")
  else fun w =>
    (w, Ok (List.filter (fun s => Z.eqb (ch.Story.ProjectID s) projectID) (stories w), None)).

Definition DeleteStory (id : Z) : M (option error) :=
  let* f := remote_fails in
  if f : bool then ret (Some "delete story: request failed")
  else fun w =>
    if existsb (fun s => Z.eqb (ch.Story.ID s) id) (stories w)
    then (set_stories
            (List.filter (fun s => negb (Z.eqb (ch.Story.ID s) id)) (stories w))
            (next_story w) w, Ok None)
    else (w, Ok (Some "delete story: not found")).

Definition CreateStory (cs : ch.CreateStory.t) : M (ch.Story.t * option error) :=
  let* f := remote_fails in
  if f : bool then ret (zeroStory, Some "create story: request failed")
  else fun w =>
    let st := ch.Story.mk (next_story w) (ch.CreateStory.Name cs)
                (ch.CreateStory.ProjectID cs) in
    (set_stories (stories w ++ [st]) (next_story w + 1) w, Ok (st, None)).

Definition CreateLinkedFiles (lf : ch.CreateLinkedFile.t)
    : M (ch.LinkedFile.t * option error) :=
  let* f := remote_fails in
  if f : bool then ret (zeroLinkedFile, Some "create linked file: request failed")
  else fun w =>
    let r := ch.LinkedFile.mk (next_file w) (ch.CreateLinkedFile.Name lf)
               (ch.CreateLinkedFile.URL lf) in
    (set_linked_files (linked_files w ++ [r]) (next_file w + 1) w, Ok (r, None)).

(** ** The web and the Dropbox service *)

(** [http.Get(url)]: the body of the answer. *)
Definition http_Get (url : string) : M (option string * option error) :=
  let* f := remote_fails in
  if f : bool then ret (None, Some "http get: request failed")
  else fun w => (w, Ok (Some (default "" (web w !! url)), None)).

Record UploadInput := {
  up_Path : string; up_Mode : string; up_AutoRename : bool; up_Mute : bool;
  up_ClientModified : string; up_Reader : string
}.

(** [c.Files.Upload(&u)], with mode "overwrite": the file at the path is
    replaced.  On failure the output pointer is nil. *)
Definition Files_Upload (u : UploadInput) : M (option UploadOutput * option error) :=
  let* f := remote_fails in
  if f : bool then ret (None, Some "upload: request failed")
  else fun w =>
    (set_dropbox_files (<[up_Path u := up_Reader u]> (dropbox_files w)) w,
     Ok (Some {| PathDisplay := up_Path u |}, None)).

Definition links_of (path : string) (w : World) : list DropboxShareLink :=
  List.filter (fun l => String.eqb (PathLower l) path) (shared_links w).

(** The two sharing routes of the Dropbox API, addressed by the endpoint
    as the callers spell it. *)
Definition dropbox_post (endpoint : string) (req : DropboxShareReq) : M Reply :=
  if String.eqb endpoint "sharing/create_shared_link_with_settings" then
    fun w =>
      match links_of (Path req) w with
      | _ :: _ => (w, Ok (ReplyError "shared_link_already_exists"))
      | [] =>
          let l := {| URL := "https://www.dropbox.com/s" +:+ Path req;
                      PathLower := Path req |} in
          (set_shared_links (shared_links w ++ [l]) w, Ok (ReplyLink l))
      end
  else if String.eqb endpoint "/sharing/list_shared_links" then
    fun w => (w, Ok (ReplyLinks {| Links := links_of (Path req) w |}))
  else ret (ReplyError "unknown route").

(** Zero-padded decimal of width [n], for [Strftime]. *)
Definition zpad (n : nat) (z : Z) : string :=
  let d := fmt_d z in
  String.concat "" (repeat "0" (n - String.length d)) +:+ d.

(** [lctime.Strftime("%Y-%m-%dT%H:%M:%SZ", t)] *)
Definition Strftime (t : Time) : string :=
  zpad 4 (year t) +:+ "-" +:+ zpad 2 (month t) +:+ "-" +:+ zpad 2 (day t)
  +:+ "T" +:+ zpad 2 (hour t) +:+ ":" +:+ zpad 2 (minute t) +:+ ":"
  +:+ zpad 2 (second t) +:+ "Z".

(** [for _, x := range l] threading the variables [s] the body assigns. *)
Fixpoint fold_range {A St} (l : list A) (s : St) (body : St -> A -> M St)
    : M St :=
  match l with
  | [] => ret s
  | x :: r => let* s' := body s x in fold_range r s' body
  end.

Fixpoint fold_range_indexed {A St} (i : nat) (l : list A) (s : St)
    (body : nat -> St -> A -> M St) : M St :=
  match l with
  | [] => ret s
  | x :: r => let* s' := body i s x in fold_range_indexed (S i) r s' body
  end.

(** ** A reader of the date layout, to run the definitions

    [time.Parse] is a parameter of the development below.  This strict
    reader of ["2006-01-02T15:04:05.000Z"] instantiates it on concrete
    inputs: four-digit year, two-digit fields, three fraction digits, a
    final [Z], and a day that exists in the month. *)
Definition digit_val (c : ascii) : option Z :=
  if between "0" "9" c then Some (Z.of_N (N_of_ascii c) - 48) else None.

Fixpoint digits_val (acc : Z) (s : string) : option Z :=
  match s with
  | EmptyString => Some acc
  | String c r =>
      match digit_val c with
      | Some d => digits_val (10 * acc + d) r
      | None => None
      end
  end.

Definition field (s : string) (pos len : nat) : option Z :=
  let f := String.substring pos len s in
  if Nat.eqb (String.length f) len then digits_val 0 f else None.

Definition isLeap (y : Z) : bool :=
  (y mod 4 =? 0)%Z && (negb (y mod 100 =? 0)%Z || (y mod 400 =? 0)%Z).

Definition daysIn (m y : Z) : Z :=
  if (m =? 2)%Z then (if isLeap y then 29 else 28)
  else if ((m =? 4) || (m =? 6) || (m =? 9) || (m =? 11))%Z then 30 else 31.

Definition zeroTime : Time := mkTime 1 1 1 0 0 0 0.

Definition strictParse (layout value : string) : Time * option error :=
  let bad := (zeroTime, Some ("parsing time: " +:+ value)) in
  if negb (String.eqb layout dateLayout) then bad
  else if negb (Nat.eqb (String.length value) 24) then bad
  else if negb (String.eqb (String.substring 4 1 value) "-"
                && String.eqb (String.substring 7 1 value) "-"
                && String.eqb (String.substring 10 1 value) "T"
                && String.eqb (String.substring 13 1 value) ":"
                && String.eqb (String.substring 16 1 value) ":"
                && String.eqb (String.substring 19 1 value) "."
                && String.eqb (String.substring 23 1 value) "Z") then bad
  else
    match field value 0 4, field value 5 2, field value 8 2,
          field value 11 2, field value 14 2, field value 17 2,
          field value 20 3 with
    | Some y, Some mo, Some d, Some h, Some mi, Some sec, Some ms =>
        if ((1 <=? mo) && (mo <=? 12) && (1 <=? d) && (d <=? daysIn mo y)
            && (h <? 24) && (mi <? 60) && (sec <? 60))%Z
        then (mkTime y mo d h mi sec (ms * 1000000), None)
        else bad
    | _, _, _, _, _, _, _ => bad
    end.

(** A user table to instantiate the identity map: identifiers without an
    entry translate to the empty string. *)
Definition tableGetCreator (um : gmap string string) (id : string) : string :=
  default "" (um !! id).

(** ** The program *)
Section Migration.

(** [time.Parse] of the Go library and the user identity map with its
    lookup [GetCreator] are taken as given. *)
Variable time_Parse : string -> string -> Time * option error.
Variable UserMap : Type.
Variable GetCreator : UserMap -> string -> string.

(** *** export.go: the normalizer *)

Definition parseDateOrReturnNil (strDate : string) : option Time :=
  let '(d, err) := time_Parse dateLayout strDate in
  match err with
  | Some _ => None   (* not parseable: just return nil *)
  | None => Some d
  end.

(** The body of the loop over the actions; the state is
    [(creator, createdAt, comments)]. *)
Definition scanAction (st : string * option Time * list Comment.t)
    (a : trello.Action) : string * option Time * list Comment.t :=
  let '(creator, createdAt, comments) := st in
  if String.eqb (trello.Type_ a) "commentCard"
     && negb (String.eqb (trello.Text (trello.Data a)) "")
  then
    let c := Comment.mk (trello.Text (trello.Data a))
               (trello.Id (trello.MemberCreator a))
               (trello.FullName (trello.MemberCreator a))
               (parseDateOrReturnNil (trello.Date a)) in
    (creator, createdAt, comments ++ [c])
  else if String.eqb (trello.Type_ a) "createCard" then
    (trello.Id (trello.MemberCreator a),
     parseDateOrReturnNil (trello.Date a), comments)
  else st.

Definition getCommentsAndCardCreator (card : trello.Card)
    : M (string * option Time * list Comment.t) :=
  let '(actions, err) := trello.Actions card in
  exec match err with
       | Some e =>
           print ("Error: Querying the actions for: " +:+ trello.Name card
                  +:+ " ignoring... " +:+ e +:+ newline)
       | None => ret tt
       end in
  ret (fold_left scanAction actions ("", None, [])).

Definition checkItemTask (cl : trello.Checklist) (i : trello.ChecklistItem)
    : Task.t :=
  let completed := if String.eqb (trello.State i) "complete" then true else false in
  Task.mk completed (trello.ListName cl +:+ " - " +:+ trello.ItemName i).

Definition getCheckListsForCard (card : trello.Card) : M (list Task.t) :=
  let '(checklists, err) := trello.Checklists card in
  exec match err with
       | Some e =>
           print ("Error: Occurred querying checklists for: "
                  +:+ trello.Name card +:+ " ignoring... " +:+ e +:+ newline)
       | None => ret tt
       end in
  ret (fold_left
         (fun tasks cl =>
            fold_left (fun tasks i => tasks ++ [checkItemTask cl i])
              (trello.CheckItems cl) tasks)
         checklists []).

Definition getLabelsFlattenFromCard (card : trello.Card) : list string :=
  fold_left (fun labels l => labels ++ [trello.LabelName l])
    (trello.Labels card) [].

(** *** export.go: the attachment relocator *)

(** [call]: posts the request and decodes the answer; nil when the
    request fails. *)
Definition call (in_ : DropboxShareReq) (endpoint : string) : M Reply :=
  let* f := remote_fails in
  if f : bool then ret NoReply else dropbox_post endpoint in_.

(** The named results [out] and [err] are never assigned: what [call]
    answers is dropped and the bare [return] yields [(nil, nil)]. *)
Definition createShareLink (path : string)
    : M (option DropboxShareLink * option error) :=
  let sh := {| Path := path |} in
  exec call sh "sharing/create_shared_link_with_settings" in
  ret (None, None).

Definition getSharedLinks (path : string)
    : M (option DropboxShareLinks * option error) :=
  let sh := {| Path := path |} in
  exec call sh "/sharing/list_shared_links" in
  ret (None, None).

Definition downloadTrelloAttachment (attachment : trello.Attachment)
    : M string :=
  let* '(resp, err) := http_Get (trello.Url attachment) in
  match err with
  | Some e => log_Fatal ("Error in download Trello attachment " +:+ e +:+ newline)
  | None => deref resp
  end.

Definition attachmentPath (card : trello.Card) (i : nat) (name : string)
    : string :=
  "/trello/" +:+ trello.IdList card +:+ "/" +:+ trello.CardId card +:+ "/"
  +:+ fmt_d (Z.of_nat i) +:+ "_" +:+ name.

Definition downloadCardAttachmentsUploadToDropbox (card : trello.Card)
    : M (gmap string string) :=
  let '(attachments, err) := trello.Attachments card in
  exec match err with
       | Some e => log_Fatal (e +:+ newline)
       | None => ret tt
       end in
  fold_range_indexed 0 attachments (∅ : gmap string string)
    (fun i sharedLinks f =>
       let name := sanitize (trello.AttName f) in
       let path := attachmentPath card i name in
       let* r := downloadTrelloAttachment f in
       let* now := time_Now in
       let n := Strftime now in
       match err with
       | Some e =>
           log_Fatal ("Error occurred downloading file from trello... "
                      +:+ e +:+ newline)
       | None =>
           let u := {| up_Path := path; up_Mode := "overwrite";
                       up_AutoRename := false; up_Mute := true;
                       up_ClientModified := n; up_Reader := r |} in
           let* '(o, err) := Files_Upload u in
           match err with
           | Some e =>
               let* o' := deref o in
               log_Fatal ("Error occurred uploading file: '" +:+ PathDisplay o'
                          +:+ "' to dropbox continuing. Error: '" +:+ e
                          +:+ "'" +:+ newline)
           | None =>
               let* o' := deref o in
               let* '(links, _) := getSharedLinks (PathDisplay o') in
               let* ls := deref links in
               match Links ls with
               | [] =>
                   let* '(link, err) := createShareLink (PathDisplay o') in
                   match err with
                   | Some e =>
                       exec print ("Error occurred sharing file: '"
                                   +:+ PathDisplay o'
                                   +:+ "' to dropbox continuing. Error: '"
                                   +:+ e +:+ "'" +:+ newline) in
                       ret sharedLinks
                   | None =>
                       let* l := deref link in
                       ret (<[name := URL l]> sharedLinks)
                   end
               | l0 :: _ => ret (<[name := URL l0]> sharedLinks)
               end
           end
       end).

Definition ProcessCardsForExporting (crds : list trello.Card)
    (opts : TrelloOptions) : M (list Card.t) :=
  fold_range crds []
    (fun cards card =>
       let labels := getLabelsFlattenFromCard card in
       let dueDate := parseDateOrReturnNil (trello.Due card) in
       let* '(idCreator, createdAt, comments) := getCommentsAndCardCreator card in
       let* tasks := getCheckListsForCard card in
       let* attachments :=
         if ProcessImages opts
         then downloadCardAttachmentsUploadToDropbox card
         else ret ∅ in
       ret (cards ++ [Card.mk (trello.Name card) (trello.Desc card) labels
                        dueDate idCreator (trello.IdMembers card) createdAt
                        comments tasks (trello.Pos card)
                        (trello.ShortUrl card) attachments])).

(** *** import.go *)

Definition deleteMatchingStories (stories : list ch.Story.t)
    (opts : ClubhouseOptions) (card : Card.t) : M unit :=
  for_each stories
    (fun s =>
       if String.eqb (ch.Story.Name s) (Card.Name card) then
         let* err := DeleteStory (ch.Story.ID s) in
         match err with
         | Some _ =>
             print (outputFormat (Card.ShortURL card) "Deleted Matching"
                      ("Story ID: " +:+ fmt_d (ch.Story.ID s)))
         | None => ret tt
         end
       else ret tt).

(** The iteration order over a Go map is unspecified; the order of
    [map_to_list] stands for the one the run takes. *)
Definition buildLinkFiles (card : Card.t) (opts : ClubhouseOptions)
    : M (list Z) :=
  fold_range (map_to_list (Card.Attachments card)) []
    (fun ids kv =>
       let lf := ch.CreateLinkedFile.mk (fst kv) "dropbox" (snd kv)
                   (ImportMember_ID opts) in
       let* '(r, err) := CreateLinkedFiles lf in
       match err with
       | Some e =>
           exec print ("Fail to create linked file card name: "
                       +:+ Card.Name card +:+ " Dropbox link: " +:+ snd kv
                       +:+ " Err: " +:+ e +:+ newline) in
           ret ids
       | None => ret (ids ++ [ch.LinkedFile.ID r])
       end).

Definition mapOwnersFromTrelloCard (c : Card.t) (um : UserMap) : list string :=
  fold_left (fun owners o => owners ++ [GetCreator um o]) (Card.IDOwners c) [].

Definition buildComments (card : Card.t) (addCommentWithTrelloLink : bool)
    (um : UserMap) : M (list ch.CreateComment.t) :=
  let* comments :=
    fold_range (Card.Comments card) []
      (fun comments cm =>
         let* createdAt := deref (Comment.CreatedAt cm) in
         let com := ch.CreateComment.mk createdAt
                      (GetCreator um (Comment.IDCreator cm))
                      (Comment.Text cm) in
         ret (comments ++ [com])) in
  if addCommentWithTrelloLink then
    let* now := time_Now in
    let cc := ch.CreateComment.mk now ""
                ("Card imported from Trello: " +:+ Card.ShortURL card) in
    ret (comments ++ [cc])
  else ret comments.

Definition buildTasks (card : Card.t) : list ch.CreateTask.t :=
  fold_left
    (fun tasks t =>
       tasks ++ [ch.CreateTask.mk (Task.Completed t) (Task.Description t)])
    (Card.Tasks card) [].

Definition buildLabels (card : Card.t) : list ch.CreateLabel.t :=
  fold_left (fun labels l => labels ++ [ch.CreateLabel.mk l])
    (Card.Labels card) [].

(** The fields of the literal are evaluated in the order written:
    the comments before the linked files. *)
Definition buildClubhouseStory (card : Card.t) (opts : ClubhouseOptions)
    (um : UserMap) : M ch.CreateStory.t :=
  let requestedByID := GetCreator um (Card.IDCreator card) in
  let ownerIds := mapOwnersFromTrelloCard card um in
  let labels := buildLabels card in
  let tasks := buildTasks card in
  let* comments := buildComments card (AddCommentWithTrelloLink opts) um in
  let* linkedFileIds := buildLinkFiles card opts in
  ret (ch.CreateStory.mk (Project_ID opts) (State_ID opts) requestedByID
         ownerIds (StoryType opts) [] []
         (Card.Name card) (Card.Desc card) (Card.DueDate card)
         (Card.CreatedAt card) labels tasks comments linkedFileIds).

Definition ImportCardsIntoClubhouse (cards : list Card.t)
    (opts : ClubhouseOptions) (um : UserMap) : M unit :=
  exec print ("Importing trello cards into Clubhouse..." +:+ newline) in
  exec print (outputFormat "Trello Card Link" "Import Status" "Error/Story ID"
              +:+ newline) in
  let* '(stories, _) := ListStories (Project_ID opts) in
  for_each cards
    (fun c =>
       exec deleteMatchingStories stories opts c in
       let* cs := buildClubhouseStory c opts um in
       let* '(st, err) := CreateStory cs in
       match err with
       | Some e => print (outputFormat (Card.ShortURL c) "Failed" e)
       | None =>
           print (outputFormat (Card.ShortURL c) "Success"
                    ("Story ID: " +:+ fmt_d (ch.Story.ID st)))
       end).

End Migration.

(** ** The other revision of the relocator

    The source keeps a second revision of
    [downloadCardAttachmentsUploadToDropbox], which resolves the link
    through the sharing calls of the Dropbox client library instead of
    [getSharedLinks] and [createShareLink]. *)
Module LibrarySharing.

(** [sh.ListSharedLinks(&listInput)] *)
Definition ListSharedLinks (path : string)
    : M (option DropboxShareLinks * option error) :=
  let* f := remote_fails in
  if f : bool then ret (None, Some "list shared links: request failed")
  else fun w => (w, Ok (Some {| Links := links_of path w |}, None)).

(** [sh.CreateSharedLink(&sl)]: a link that exists for the path is
    returned, otherwise one is made. *)
Definition CreateSharedLink (path : string)
    : M (option DropboxShareLink * option error) :=
  let* f := remote_fails in
  if f : bool then ret (None, Some "create shared link: request failed")
  else fun w =>
    match links_of path w with
    | l :: _ => (w, Ok (Some l, None))
    | [] =>
        let l := {| URL := "https://db.tt" +:+ path; PathLower := path |} in
        (set_shared_links (shared_links w ++ [l]) w, Ok (Some l, None))
    end.

Definition downloadCardAttachmentsUploadToDropbox (card : trello.Card)
    : M (gmap string string) :=
  let '(attachments, err) := trello.Attachments card in
  exec match err with
       | Some e => log_Fatal (e +:+ newline)
       | None => ret tt
       end in
  fold_range_indexed 0 attachments (∅ : gmap string string)
    (fun i sharedLinks f =>
       let name := sanitize (trello.AttName f) in
       let path := attachmentPath card i name in
       let* r := downloadTrelloAttachment f in
       let* now := time_Now in
       let n := Strftime now in
       match err with
       | Some e =>
           log_Fatal ("Error occurred downloading file from trello... "
                      +:+ e +:+ newline)
       | None =>
           let u := {| up_Path := path; up_Mode := "overwrite";
                       up_AutoRename := false; up_Mute := true;
                       up_ClientModified := n; up_Reader := r |} in
           let* '(o, err) := Files_Upload u in
           match err with
           | Some e =>
               let* o' := deref o in
               log_Fatal ("Error occurred uploading file: '" +:+ PathDisplay o'
                          +:+ "' to dropbox continuing. Error: '" +:+ e
                          +:+ "'" +:+ newline)
           | None =>
               let* o' := deref o in
               let* '(links, _) := ListSharedLinks (PathDisplay o') in
               let* ls := deref links in
               match Links ls with
               | [] =>
                   let* '(link, err) := CreateSharedLink (PathDisplay o') in
                   match err with
                   | Some e =>
                       exec print ("Error occurred sharing file: '"
                                   +:+ PathDisplay o'
                                   +:+ "' to dropbox continuing. Error: '"
                                   +:+ e +:+ "'" +:+ newline) in
                       ret sharedLinks
                   | None =>
                       let* l := deref link in
                       ret (<[name := URL l]> sharedLinks)
                   end
               | l0 :: _ => ret (<[name := URL l0]> sharedLinks)
               end
           end
       end).

End LibrarySharing.

(** ** Words of the specification *)

(** A "card created" event. *)
Definition isCreateCard (a : trello.Action) : bool :=
  String.eqb (trello.Type_ a) "createCard".

(** A "comment added" event with a non-empty text. *)
Definition isTextComment (a : trello.Action) : bool :=
  String.eqb (trello.Type_ a) "commentCard"
  && negb (String.eqb (trello.Text (trello.Data a)) "").

(** The Comment of a comment event. *)
Definition commentOfAction (time_Parse : string -> string -> Time * option error)
    (a : trello.Action) : Comment.t :=
  Comment.mk (trello.Text (trello.Data a))
    (trello.Id (trello.MemberCreator a))
    (trello.FullName (trello.MemberCreator a))
    (parseDateOrReturnNil time_Parse (trello.Date a)).

(** The destination records of a project that carry a given name. *)
Definition records_named (name : string) (projectID : Z) (w : World)
    : list ch.Story.t :=
  List.filter
    (fun s => Z.eqb (ch.Story.ProjectID s) projectID
              && String.eqb (ch.Story.Name s) name)
    (stories w).

(** Story identifiers are unique and below the next one handed out. *)
Definition store_ok (w : World) : Prop :=
  List.NoDup (map ch.Story.ID (stories w)) /\
  Forall (fun s => ch.Story.ID s < next_story w) (stories w).

Definition dated (card : Card.t) : Prop :=
  Forall (fun cm => Comment.CreatedAt cm <> None) (Card.Comments card).

(** What the duplicate check of card [c] removes: the stories that the
    listing [snap] shows under the card's name. *)
Definition deleted_by (snap : list ch.Story.t) (c : Card.t) (t : ch.Story.t)
    : bool :=
  existsb
    (fun s => String.eqb (ch.Story.Name s) (Card.Name c)
              && Z.eqb (ch.Story.ID s) (ch.Story.ID t))
    snap.

(** The stories a run creates, one per card, from identifier [n] on. *)
Fixpoint created (n : Z) (projectID : Z) (cards : list Card.t)
    : list ch.Story.t :=
  match cards with
  | [] => []
  | c :: r => ch.Story.mk n (Card.Name c) projectID :: created (n + 1) projectID r
  end.

(** A story of the project that carries the name of one of the cards. *)
Definition collides (projectID : Z) (cards : list Card.t) (t : ch.Story.t)
    : bool :=
  Z.eqb (ch.Story.ProjectID t) projectID
  && existsb (fun c => String.eqb (ch.Story.Name t) (Card.Name c)) cards.

(** The comments of a request, when every date is present. *)
Fixpoint mapped_comments {UserMap : Type}
    (GetCreator : UserMap -> string -> string) (um : UserMap)
    (cms : list Comment.t) : option (list ch.CreateComment.t) :=
  match cms with
  | [] => Some []
  | cm :: r =>
      match Comment.CreatedAt cm, mapped_comments GetCreator um r with
      | Some t, Some l =>
          Some (ch.CreateComment.mk t (GetCreator um (Comment.IDCreator cm))
                  (Comment.Text cm) :: l)
      | _, _ => None
      end
  end.

(** The synthetic trailing comment. *)
Definition backlink (now : Time) (card : Card.t) : ch.CreateComment.t :=
  ch.CreateComment.mk now ""
    ("Card imported from Trello: " +:+ Card.ShortURL card).

(** A step that leaves the stories alone and schedules no failure. *)
Definition story_frame (w w' : World) : Prop :=
  stories w' = stories w /\ next_story w' = next_story w
  /\ (faults w = [] -> faults w' = []).

(** The events the scan looks at. *)
Definition isScanned (a : trello.Action) : bool :=
  isTextComment a || isCreateCard a.

(** The Card of a source card, without attachments. *)
Definition normalized (time_Parse : string -> string -> Time * option error)
    (tc : trello.Card) : Card.t :=
  let '(creator, createdAt, comments) :=
    fold_left (scanAction time_Parse) (fst (trello.Actions tc)) ("", None, []) in
  Card.mk (trello.Name tc) (trello.Desc tc)
    (map trello.LabelName (trello.Labels tc))
    (parseDateOrReturnNil time_Parse (trello.Due tc))
    creator (trello.IdMembers tc) createdAt comments
    (flat_map
       (fun cl => map (checkItemTask cl) (trello.CheckItems cl))
       (fst (trello.Checklists tc)))
    (trello.Pos tc) (trello.ShortUrl tc) ∅.

(** A source card that has an attachment. *)
Definition has_attachment (tc : trello.Card) : Prop :=
  exists a rest, trello.Attachments tc = (a :: rest, None).

(** Nothing but the console differs between the two worlds. *)
Definition console_only (w w' : World) : Prop :=
  w' = set_console (console w') w.

(** The attachment a linked file was registered for. *)
Definition file_entry (lf : ch.LinkedFile.t) : string * string :=
  (ch.LinkedFile.Name lf, ch.LinkedFile.URL lf).

(** The identifiers [n], [n+1], ... handed out to [k] new records. *)
Definition fresh_ids (n : Z) (k : nat) : list Z :=
  map (fun i => n + Z.of_nat i) (seq 0 k).

(** The shared links of a path among [links]. *)
Definition links_in (path : string) (links : list DropboxShareLink)
    : list DropboxShareLink :=
  List.filter (fun l => String.eqb (PathLower l) path) links.

(** The map from sanitized names to the URL of the first link of each
    attachment's path, for the attachments [atts] counted from [i]. *)
Fixpoint link_map (card : trello.Card) (links : list DropboxShareLink)
    (i : nat) (atts : list trello.Attachment) (m : gmap string string)
    : gmap string string :=
  match atts with
  | [] => m
  | f :: r =>
      let name := sanitize (trello.AttName f) in
      match links_in (attachmentPath card i name) links with
      | l0 :: _ => link_map card links (S i) r (<[name := URL l0]> m)
      | [] => link_map card links (S i) r m
      end
  end.

(** Every path of the attachments [atts], counted from [i], has a link. *)
Fixpoint covered (card : trello.Card) (links : list DropboxShareLink)
    (i : nat) (atts : list trello.Attachment) : Prop :=
  match atts with
  | [] => True
  | f :: r =>
      links_in (attachmentPath card i (sanitize (trello.AttName f))) links <> []
      /\ covered card links (S i) r
  end.

(** The status lines of cards whose stories get the identifiers [n],
    [n+1], ... *)
Fixpoint success_lines (n : Z) (cards : list Card.t) : list string :=
  match cards with
  | [] => []
  | c :: r =>
      outputFormat (Card.ShortURL c) "Success" ("Story ID: " +:+ fmt_d n)
      :: success_lines (n + 1) r
  end.

(** ** Sample inputs *)

Definition sample_users : gmap string string := {[ "u1" := "ch-1" ]}.

Definition sample_opts : ClubhouseOptions :=
  {| Project_ID := 7; State_ID := 3; ImportMember_ID := "ch-9";
     StoryType := "feature"; AddCommentWithTrelloLink := true |}.

Definition may_first : Time := mkTime 2023 5 1 0 0 0 0.

(** A quiet world: an empty project, no link, no scheduled failure. *)
Definition empty_world : World :=
  mkWorld [] 1 [] 1 ∅ [] ∅ [] (fun _ => may_first) 0 [].

(** A project that already holds a story named like a card. *)
Definition used_world : World :=
  mkWorld [ch.Story.mk 1 "Fix login bug" 7; ch.Story.mk 2 "Other" 7] 3
    [] 1 ∅ [] ∅ [] (fun _ => may_first) 0 [].

Definition card_login : Card.t :=
  Card.mk "Fix login bug" "" [] None "u1" ["u1"] None
    [Comment.mk "LGTM" "u1" "User One" (Some may_first)] [] 0
    "https://trello.com/c/1" ∅.

Definition card_login_again : Card.t :=
  Card.mk "Fix login bug" "" [] None "u1" [] None [] [] 0
    "https://trello.com/c/2" ∅.

(** A card with two attachments already relocated. *)
Definition card_files : Card.t :=
  Card.mk "Release notes" "text" ["doc"; "doc"] (Some may_first) "u1" ["u1"]
    (Some may_first) [] [Task.mk true "Checklist - Tests"] 0
    "https://trello.com/c/4"
    {[ "a.png" := "https://db.tt/a"; "b.png" := "https://db.tt/b" ]}.

(** A card with a comment that has no date. *)
Definition card_undated : Card.t :=
  Card.mk "Fix login bug" "" [] None "u1" [] None
    [Comment.mk "LGTM" "u1" "User One" None] [] 0
    "https://trello.com/c/5" ∅.

(** A world where the next remote call fails. *)
Definition failing_world : World :=
  mkWorld [ch.Story.mk 1 "Fix login bug" 7; ch.Story.mk 2 "Other" 7] 3
    [] 1 ∅ [] ∅ [true] (fun _ => may_first) 0 [].

Definition card_docs : Card.t :=
  Card.mk "Write docs" "" [] None "u1" [] None [] [] 0
    "https://trello.com/c/3" ∅.

(** An event the scan does not look at. *)
Definition move_event : trello.Action :=
  {| trello.Type_ := "updateCard"; trello.Data := {| trello.Text := "" |};
     trello.MemberCreator := {| trello.Id := "u2"; trello.FullName := "User Two" |};
     trello.Date := "2023-05-01T00:00:00.000Z" |}.

(** A comment event whose date does not parse. *)
Definition undated_comment : trello.Action :=
  {| trello.Type_ := "commentCard"; trello.Data := {| trello.Text := "LGTM" |};
     trello.MemberCreator := {| trello.Id := "u1"; trello.FullName := "User One" |};
     trello.Date := "" |}.

Definition trello_card (actions : list trello.Action)
    (attachments : list trello.Attachment) : trello.Card :=
  {| trello.CardId := "c1"; trello.IdList := "l1";
     trello.Name := "Fix login bug"; trello.Desc := ""; trello.Due := "";
     trello.Pos := 0; trello.ShortUrl := "https://trello.com/c/1";
     trello.IdMembers := []; trello.Labels := [];
     trello.Actions := (actions, None); trello.Checklists := ([], None);
     trello.Attachments := (attachments, None) |}.

Definition one_attachment : list trello.Attachment :=
  [{| trello.AttName := "My File #1.png"; trello.Url := "https://trello.com/a/1" |}].

(** Two attachments whose names sanitize to the same name. *)
Definition clashing_attachments : list trello.Attachment :=
  [{| trello.AttName := "a b.png"; trello.Url := "https://trello.com/a/1" |};
   {| trello.AttName := "a#b.png"; trello.Url := "https://trello.com/a/2" |}].

(** A world where the first attachment was uploaded and shared before. *)
Definition shared_world : World :=
  mkWorld [] 1 [] 1
    {[ "/trello/l1/c1/0_My_File_1.png" := "bytes" ]}
    [{| URL := "https://www.dropbox.com/s/trello/l1/c1/0_My_File_1.png";
        PathLower := "/trello/l1/c1/0_My_File_1.png" |}]
    {[ "https://trello.com/a/1" := "bytes" ]} [] (fun _ => may_first) 0 [].

(** ** Properties *)

(** *** Running computations *)

Lemma bind_run {A B} (m : M A) (k : A -> M B) (w : World) :
  bind m k w
  = match m w with
    | (w', Ok a) => k a w'
    | (w', Crash c) => (w', Crash c)
    end.
Proof. reflexivity. Qed.

Lemma remote_fails_quiet w : faults w = [] -> remote_fails w = (w, Ok false).
Proof. unfold remote_fails. now intros ->. Qed.

Lemma story_frame_refl w : story_frame w w.
Proof. unfold story_frame. auto. Qed.

Lemma story_frame_trans w1 w2 w3 :
  story_frame w1 w2 -> story_frame w2 w3 -> story_frame w1 w3.
Proof.
  unfold story_frame. intros (H1 & H2 & H3) (H4 & H5 & H6).
  repeat split; try congruence. auto.
Qed.

Lemma print_frame line w : story_frame w (fst (print line w)).
Proof. unfold story_frame. simpl. auto. Qed.

Lemma CreateLinkedFiles_frame lf w :
  exists w' r err,
    CreateLinkedFiles lf w = (w', Ok (r, err)) /\ story_frame w w'.
Proof.
  unfold CreateLinkedFiles. rewrite bind_run. unfold remote_fails.
  destruct (faults w) as [|[|] fs] eqn:E; do 3 eexists;
    (split; [reflexivity|]); unfold story_frame; simpl;
    repeat split; auto; congruence.
Qed.

(** *** File names *)

Lemma maximal_runs_flatten s : flatten (map snd (maximal_runs s)) = s.
Proof.
  induction s as [|c r IH]; [reflexivity|].
  simpl. destruct (maximal_runs r) as [|[b blk] rest] eqn:E.
  - simpl in *. now rewrite <- IH.
  - destruct (Bool.eqb b (safeFileNameClass c)); simpl in *; now rewrite <- IH.
Qed.

Lemma maximal_runs_are_runs s : Forall is_run (maximal_runs s).
Proof.
  induction s as [|c r IH]; [constructor|].
  simpl. destruct (maximal_runs r) as [|[b blk] rest] eqn:E.
  - constructor; [|constructor]. split; simpl; [discriminate|].
    now rewrite Bool.eqb_reflx.
  - destruct (Bool.eqb b (safeFileNameClass c)) eqn:Eb.
    + inversion IH as [|? ? [H1 H2] Hr]; subst.
      constructor; [|assumption]. split; simpl in *; [discriminate|].
      rewrite H2, andb_true_r. apply Bool.eqb_prop in Eb. subst.
      apply Bool.eqb_reflx.
    + constructor; [|assumption]. split; simpl; [discriminate|].
      now rewrite Bool.eqb_reflx.
Qed.

Lemma maximal_runs_alternate s : alternating (maximal_runs s).
Proof.
  induction s as [|c r IH]; [exact I|].
  simpl. destruct (maximal_runs r) as [|[b blk] rest] eqn:E; [exact I|].
  destruct (Bool.eqb b (safeFileNameClass c)) eqn:Eb.
  - destruct rest; [exact I|]. exact IH.
  - split; [|exact IH]. simpl. intros Hb.
    rewrite <- Hb, Bool.eqb_reflx in Eb. discriminate.
Qed.

Lemma replaceRuns_runs s :
  replaceRuns safeFileNameClass "_" false s
  = flatten (map run_image (maximal_runs s))
  /\ replaceRuns safeFileNameClass "_" true s
     = match maximal_runs s with
       | (true, _) :: rest => flatten (map run_image rest)
       | l => flatten (map run_image l)
       end.
Proof.
  induction s as [|c r [IHf IHt]]; [split; reflexivity|].
  simpl. destruct (safeFileNameClass c) eqn:Ec.
  - rewrite IHt. destruct (maximal_runs r) as [|[[|] blk] rest]; simpl;
      split; reflexivity.
  - rewrite IHf. destruct (maximal_runs r) as [|[[|] blk] rest]; simpl;
      split; reflexivity.
Qed.

Lemma replaceRuns_safe s b :
  all_chars (fun c => negb (safeFileNameClass c)) s = true ->
  replaceRuns safeFileNameClass "_" b s = s.
Proof.
  revert b. induction s as [|c r IH]; intros b H; [reflexivity|].
  cbn [replaceRuns all_chars] in *. apply andb_true_iff in H as [Hc Hr].
  apply negb_true_iff in Hc. rewrite Hc. now rewrite IH.
Qed.

(** C6: sanitization replaces each maximal run of characters outside
    [[A-Za-z0-9_.]] by one underscore and keeps the other runs: the runs
    of [name] partition it, each is non-empty and of one kind,
    neighbours differ in kind, and the sanitized name is the runs put
    back together with an underscore for each run outside the set.
    ["My File #1.png"] becomes ["My_File_1.png"], and a name with no
    character outside the set is returned unchanged. *)
Theorem sanitize_replaces_maximal_runs :
  (forall name : string,
      flatten (map snd (maximal_runs name)) = name
      /\ Forall is_run (maximal_runs name)
      /\ alternating (maximal_runs name)
      /\ sanitize name = sanitize_spec name)
  /\ sanitize "My File #1.png" = "My_File_1.png"
  /\ (forall name : string,
         all_chars (fun c => negb (safeFileNameClass c)) name = true ->
         sanitize name = name).
Proof.
  split; [|split].
  - intros name.
    split; [apply maximal_runs_flatten|].
    split; [apply maximal_runs_are_runs|].
    split; [apply maximal_runs_alternate|].
    apply (proj1 (replaceRuns_runs name)).
  - reflexivity.
  - intros name H. now apply replaceRuns_safe.
Qed.

(** *** The normalizer *)
Section NormalizerFacts.

Variable time_Parse : string -> string -> Time * option error.

Local Abbreviation parseDate := (parseDateOrReturnNil time_Parse).
Local Abbreviation scan := (scanAction time_Parse).
Local Abbreviation commentOf := (commentOfAction time_Parse).

(** One step of the scan, by the kind of the event. *)
Lemma scan_step creator createdAt comments a :
  scan (creator, createdAt, comments) a
  = if isTextComment a then (creator, createdAt, comments ++ [commentOf a])
    else if isCreateCard a
         then (trello.Id (trello.MemberCreator a),
               parseDate (trello.Date a), comments)
         else (creator, createdAt, comments).
Proof. reflexivity. Qed.

Lemma text_comment_not_create a : isTextComment a = true -> isCreateCard a = false.
Proof.
  unfold isTextComment, isCreateCard. intros H.
  apply andb_true_iff in H as [H _]. apply String.eqb_eq in H.
  now rewrite H.
Qed.

(** The whole scan: the last creation event decides creator and date,
    the text comments are collected in order. *)
Lemma scan_actions actions creator createdAt comments :
  fold_left scan actions (creator, createdAt, comments)
  = (match last (List.filter isCreateCard actions) with
     | Some a => trello.Id (trello.MemberCreator a)
     | None => creator
     end,
     match last (List.filter isCreateCard actions) with
     | Some a => parseDate (trello.Date a)
     | None => createdAt
     end,
     comments ++ map commentOf (List.filter isTextComment actions)).
Proof.
  induction actions as [|a l IH] using rev_ind.
  - simpl. now rewrite app_nil_r.
  - rewrite fold_left_app, IH. cbn [fold_left].
    rewrite scan_step, !List.filter_app. cbn [List.filter].
    destruct (isTextComment a) eqn:Et.
    + rewrite (text_comment_not_create a Et), !app_nil_r, map_app.
      cbn [map]. now rewrite app_assoc.
    + destruct (isCreateCard a) eqn:Ec.
      * rewrite last_snoc, !app_nil_r. reflexivity.
      * rewrite !app_nil_r. reflexivity.
Qed.

Lemma getCommentsAndCardCreator_result card w :
  snd (getCommentsAndCardCreator time_Parse card w)
  = Ok (fold_left scan (fst (trello.Actions card)) ("", None, [])).
Proof.
  unfold getCommentsAndCardCreator.
  destruct (trello.Actions card) as [actions [e|]]; reflexivity.
Qed.

(** C7: the timestamp is either the date [time.Parse] reads with the
    layout ["2006-01-02T15:04:05.000Z"], or absent when the parse
    fails; there is no third outcome and no error is passed on.  The
    empty input, which the reader of the layout rejects, gives the
    absent value. *)
Theorem parseDateOrReturnNil_date_or_nil :
  dateLayout = "2006-01-02T15:04:05.000Z"
  /\ (forall strDate : string,
         match time_Parse dateLayout strDate with
         | (d, None) => parseDate strDate = Some d
         | (_, Some _) => parseDate strDate = None
         end)
  /\ parseDateOrReturnNil strictParse "" = None.
Proof.
  split; [reflexivity|]. split; [|reflexivity].
  intros strDate. unfold parseDateOrReturnNil.
  destruct (time_Parse dateLayout strDate) as [d [e|]]; reflexivity.
Qed.

(** C3: the creator and the creation date come from the last
    "createCard" event of the action list: with one such event they are
    its actor id and its parsed date, with several the last one wins,
    with none the creator is the empty string and the date is absent;
    the scan always returns. *)
Theorem creator_from_last_createCard (card : trello.Card) (w : World) :
  exists comments,
    snd (getCommentsAndCardCreator time_Parse card w)
    = Ok (match last (List.filter isCreateCard (fst (trello.Actions card))) with
          | Some a => trello.Id (trello.MemberCreator a)
          | None => ""
          end,
          match last (List.filter isCreateCard (fst (trello.Actions card))) with
          | Some a => parseDate (trello.Date a)
          | None => None
          end,
          comments).
Proof.
  eexists. rewrite getCommentsAndCardCreator_result, scan_actions.
  reflexivity.
Qed.

(** C5: the comments are, in the order of the action list, one Comment
    per "commentCard" event with a non-empty text, carrying the event's
    text, actor id, actor name and parsed date; a "commentCard" event
    with an empty text contributes nothing. *)
Theorem comments_from_text_comments (card : trello.Card) (w : World) :
  (exists creator createdAt,
      snd (getCommentsAndCardCreator time_Parse card w)
      = Ok (creator, createdAt,
            map (fun a =>
                   Comment.mk (trello.Text (trello.Data a))
                     (trello.Id (trello.MemberCreator a))
                     (trello.FullName (trello.MemberCreator a))
                     (parseDate (trello.Date a)))
              (List.filter isTextComment (fst (trello.Actions card)))))
  /\ (forall actor date,
         isTextComment
           {| trello.Type_ := "commentCard";
              trello.Data := {| trello.Text := "" |};
              trello.MemberCreator := actor; trello.Date := date |}
         = false).
Proof.
  split.
  - do 2 eexists. rewrite getCommentsAndCardCreator_result, scan_actions.
    reflexivity.
  - reflexivity.
Qed.

Lemma checklist_items cl (tasks : list Task.t) items :
  fold_left (fun tasks i => tasks ++ [checkItemTask cl i]) items tasks
  = tasks ++ map (checkItemTask cl) items.
Proof.
  revert tasks. induction items as [|i r IH]; intros tasks; simpl.
  - now rewrite app_nil_r.
  - now rewrite IH, <- app_assoc.
Qed.

Lemma checklists_tasks checklists (tasks : list Task.t) :
  fold_left
    (fun tasks cl =>
       fold_left (fun tasks i => tasks ++ [checkItemTask cl i])
         (trello.CheckItems cl) tasks)
    checklists tasks
  = tasks ++ flat_map (fun cl => map (checkItemTask cl) (trello.CheckItems cl))
               checklists.
Proof.
  revert tasks. induction checklists as [|cl r IH]; intros tasks; simpl.
  - now rewrite app_nil_r.
  - now rewrite IH, checklist_items, <- app_assoc.
Qed.

Lemma checkItemTask_complete cl i :
  checkItemTask cl i
  = Task.mk (bool_decide (trello.State i = "complete"))
      (trello.ListName cl +:+ " - " +:+ trello.ItemName i).
Proof.
  unfold checkItemTask. f_equal.
  destruct (String.eqb_spec (trello.State i) "complete") as [E|E].
  - now rewrite bool_decide_eq_true_2.
  - now rewrite bool_decide_eq_false_2.
Qed.

(** C4: the tasks are one per item of each checklist, checklists in
    order and items in order within each; a task is completed exactly
    when the item's state is ["complete"], and its description is
    ["<checklist> - <item>"]. *)
Theorem tasks_from_checklists (card : trello.Card) (w : World) :
  snd (getCheckListsForCard card w)
  = Ok (flat_map
          (fun cl =>
             map (fun i =>
                    Task.mk (bool_decide (trello.State i = "complete"))
                      (trello.ListName cl +:+ " - " +:+ trello.ItemName i))
               (trello.CheckItems cl))
          (fst (trello.Checklists card))).
Proof.
  unfold getCheckListsForCard.
  destruct (trello.Checklists card) as [checklists [e|]];
    cbn [fst snd bind print ret];
    rewrite checklists_tasks; cbn [app]; f_equal;
    apply flat_map_ext; intros cl; apply map_ext; intros i;
    apply checkItemTask_complete.
Qed.

End NormalizerFacts.

(** *** The import: building the request *)
Section RequestFacts.

Variable UserMap : Type.
Variable GetCreator : UserMap -> string -> string.

Local Abbreviation comments_of := (mapped_comments GetCreator).

Lemma mapOwners_map (c : Card.t) (um : UserMap) :
  mapOwnersFromTrelloCard UserMap GetCreator c um
  = map (GetCreator um) (Card.IDOwners c).
Proof.
  unfold mapOwnersFromTrelloCard.
  enough (H : forall l acc,
             fold_left (fun owners o => owners ++ [GetCreator um o]) l acc
             = acc ++ map (GetCreator um) l) by apply (H _ []).
  induction l as [|o r IH]; intros acc; simpl.
  - now rewrite app_nil_r.
  - now rewrite IH, <- app_assoc.
Qed.

(** The loop over the comments leaves the world alone; it panics as
    soon as a date is missing. *)
Lemma comments_loop um cms acc w :
  fold_range cms acc
    (fun comments cm =>
       let* createdAt := deref (Comment.CreatedAt cm) in
       ret (comments ++
            [ch.CreateComment.mk createdAt
               (GetCreator um (Comment.IDCreator cm)) (Comment.Text cm)])) w
  = match comments_of um cms with
    | Some l => (w, Ok (acc ++ l))
    | None => (w, Crash NilDereference)
    end.
Proof.
  revert acc w. induction cms as [|cm r IH]; intros acc w.
  - simpl. unfold ret. now rewrite app_nil_r.
  - cbn [fold_range mapped_comments].
    destruct (Comment.CreatedAt cm) as [t|].
    + etransitivity;
        [exact (IH (acc ++ [ch.CreateComment.mk t
                              (GetCreator um (Comment.IDCreator cm))
                              (Comment.Text cm)]) w)|].
      destruct (comments_of um r); [|reflexivity].
      now rewrite <- app_assoc.
    + reflexivity.
Qed.

Lemma buildComments_run card add um w :
  buildComments UserMap GetCreator card add um w
  = match comments_of um (Card.Comments card) with
    | Some l =>
        if add : bool
        then (set_ticks (S (ticks w)) w,
              Ok (l ++ [backlink (clock w (ticks w)) card]))
        else (w, Ok l)
    | None => (w, Crash NilDereference)
    end.
Proof.
  unfold buildComments. rewrite bind_run, comments_loop.
  destruct (comments_of um (Card.Comments card)); [|reflexivity].
  destruct add; reflexivity.
Qed.

Lemma comments_of_none um cms :
  comments_of um cms = None
  <-> Exists (fun cm => Comment.CreatedAt cm = None) cms.
Proof.
  induction cms as [|cm r IH]; cbn [mapped_comments].
  - split; [discriminate|]. intros H. inversion H.
  - destruct (Comment.CreatedAt cm) as [t|] eqn:E.
    + destruct (comments_of um r) eqn:Er.
      * split; [discriminate|]. intros H. inversion H; subst.
        -- congruence.
        -- apply IH in H1. discriminate.
      * split; [|reflexivity]. intros _. right. now apply IH.
    + split; [|reflexivity]. intros _. now left.
Qed.

Lemma comments_of_some um cms l :
  comments_of um cms = Some l ->
  Forall2
    (fun cm com =>
       Comment.CreatedAt cm = Some (ch.CreateComment.CreatedAt com)
       /\ ch.CreateComment.AuthorID com = GetCreator um (Comment.IDCreator cm)
       /\ ch.CreateComment.Text com = Comment.Text cm)
    cms l.
Proof.
  revert l. induction cms as [|cm r IH]; cbn [mapped_comments]; intros l H.
  - injection H as <-. constructor.
  - destruct (Comment.CreatedAt cm) as [t|] eqn:E; [|discriminate].
    destruct (comments_of um r) as [l'|]; [|discriminate].
    injection H as <-. constructor; [|now apply IH].
    cbn. auto.
Qed.

Lemma comments_of_dated um card :
  dated card -> exists l, comments_of um (Card.Comments card) = Some l.
Proof.
  intros H. destruct (comments_of um (Card.Comments card)) eqn:E; [eauto|].
  apply comments_of_none in E. unfold dated in H.
  apply Exists_exists in E as (cm & Hin & Hn).
  rewrite Forall_forall in H. now apply H in Hin.
Qed.


(** Registering the linked files always returns, whatever fails. *)
Lemma linkfiles_loop card opts kvs acc w :
  exists w' ids,
    fold_range kvs acc
      (fun ids (kv : string * string) =>
         let lf := ch.CreateLinkedFile.mk (fst kv) "dropbox" (snd kv)
                     (ImportMember_ID opts) in
         let* '(r, err) := CreateLinkedFiles lf in
         match err with
         | Some e =>
             exec print ("Fail to create linked file card name: "
                         +:+ Card.Name card +:+ " Dropbox link: " +:+ snd kv
                         +:+ " Err: " +:+ e +:+ newline) in
             ret ids
         | None => ret (ids ++ [ch.LinkedFile.ID r])
         end) w
    = (w', Ok ids) /\ story_frame w w'.
Proof.
  match goal with
  | |- context [fold_range _ _ ?b] => set (body := b)
  end.
  revert acc w. induction kvs as [|kv r IH]; intros acc w.
  - do 2 eexists. split; [reflexivity|apply story_frame_refl].
  - cbn [fold_range]. rewrite bind_run. unfold body at 1. cbv zeta.
    rewrite bind_run.
    destruct (CreateLinkedFiles_frame
                (ch.CreateLinkedFile.mk (fst kv) "dropbox" (snd kv)
                   (ImportMember_ID opts)) w)
      as (w1 & lf & err & -> & F1).
    destruct err as [e|].
    + rewrite bind_run. cbn [print ret].
      match goal with
      | |- context [fold_range r acc body ?w2] =>
          destruct (IH acc w2) as (w' & ids & -> & F2)
      end.
      do 2 eexists. split; [reflexivity|].
      eapply story_frame_trans; [exact F1|].
      eapply story_frame_trans; [|exact F2].
      apply (print_frame _ w1).
    + cbn [ret].
      destruct (IH (acc ++ [ch.LinkedFile.ID lf]) w1) as (w' & ids & -> & F2).
      do 2 eexists. split; [reflexivity|].
      eapply story_frame_trans; eassumption.
Qed.

Lemma buildLinkFiles_frame card opts w :
  exists w' ids, buildLinkFiles card opts w = (w', Ok ids) /\ story_frame w w'.
Proof. apply linkfiles_loop. Qed.

Lemma set_ticks_frame n w : story_frame w (set_ticks n w).
Proof. unfold story_frame. simpl. auto. Qed.

(** Building the request: it panics exactly when a comment has no
    date, before any linked file is registered. *)
Lemma buildClubhouseStory_run card opts um w :
  match comments_of um (Card.Comments card) with
  | None =>
      buildClubhouseStory UserMap GetCreator card opts um w
      = (w, Crash NilDereference)
  | Some l =>
      exists w' ids,
        buildClubhouseStory UserMap GetCreator card opts um w
        = (w', Ok (ch.CreateStory.mk (Project_ID opts) (State_ID opts)
                     (GetCreator um (Card.IDCreator card))
                     (map (GetCreator um) (Card.IDOwners card))
                     (StoryType opts) [] []
                     (Card.Name card) (Card.Desc card) (Card.DueDate card)
                     (Card.CreatedAt card) (buildLabels card)
                     (buildTasks card)
                     (l ++ if AddCommentWithTrelloLink opts
                           then [backlink (clock w (ticks w)) card] else [])
                     ids))
        /\ story_frame w w'
  end.
Proof.
  unfold buildClubhouseStory. cbv zeta.
  rewrite bind_run, buildComments_run, mapOwners_map.
  destruct (comments_of um (Card.Comments card)) as [l|]; [|reflexivity].
  destruct (AddCommentWithTrelloLink opts).
  - rewrite bind_run.
    destruct (buildLinkFiles_frame card opts (set_ticks (S (ticks w)) w))
      as (w' & ids & -> & F).
    do 2 eexists. split; [reflexivity|].
    eapply story_frame_trans; [apply set_ticks_frame|exact F].
  - rewrite bind_run.
    destruct (buildLinkFiles_frame card opts w) as (w' & ids & -> & F).
    do 2 eexists. split; [unfold ret; now rewrite app_nil_r|exact F].
Qed.

(** C8: in the creation request of a card, [RequestedByID] is the
    identity-map translation of the card's creator, [OwnerIds] are the
    translations of the owners in order, the comments are the card's
    comments one for one with the author translated, followed by one
    comment with the back-link to the card's URL exactly when the
    option is set.  The request is built unless a comment has no date,
    in which case the run panics. *)
Theorem request_identity_and_comments
    (card : Card.t) (opts : ClubhouseOptions) (um : UserMap) (w : World) :
  match buildClubhouseStory UserMap GetCreator card opts um w with
  | (_, Ok st) =>
      ch.CreateStory.RequestedByID st = GetCreator um (Card.IDCreator card)
      /\ ch.CreateStory.OwnerIds st = map (GetCreator um) (Card.IDOwners card)
      /\ exists mapped,
           Forall2
             (fun cm com =>
                Comment.CreatedAt cm = Some (ch.CreateComment.CreatedAt com)
                /\ ch.CreateComment.AuthorID com
                   = GetCreator um (Comment.IDCreator cm)
                /\ ch.CreateComment.Text com = Comment.Text cm)
             (Card.Comments card) mapped
           /\ ch.CreateStory.Comments st
              = mapped ++
                if AddCommentWithTrelloLink opts
                then [ch.CreateComment.mk (clock w (ticks w)) ""
                        ("Card imported from Trello: " +:+ Card.ShortURL card)]
                else []
  | (_, Crash c) =>
      c = NilDereference
      /\ Exists (fun cm => Comment.CreatedAt cm = None) (Card.Comments card)
  end.
Proof.
  pose proof (buildClubhouseStory_run card opts um w) as H.
  destruct (comments_of um (Card.Comments card)) as [l|] eqn:E.
  - destruct H as (w' & ids & -> & _). cbn.
    split; [reflexivity|]. split; [reflexivity|].
    exists l. split; [now apply comments_of_some|reflexivity].
  - rewrite H. split; [reflexivity|].
    exact (proj1 (comments_of_none um _) E).
Qed.

End RequestFacts.

(** *** The import: the duplicate check and the run *)

Lemma filter_all {A} (f : A -> bool) (l : list A) :
  (forall x, In x l -> f x = true) -> List.filter f l = l.
Proof.
  induction l as [|x r IH]; intros H; [reflexivity|].
  simpl. rewrite (H x (or_introl eq_refl)). f_equal.
  apply IH. intros y Hy. apply H. now right.
Qed.

Lemma filter_none {A} (f : A -> bool) (l : list A) :
  (forall x, In x l -> f x = false) -> List.filter f l = [].
Proof.
  induction l as [|x r IH]; intros H; [reflexivity|].
  simpl. rewrite (H x (or_introl eq_refl)).
  apply IH. intros y Hy. apply H. now right.
Qed.

Lemma filter_filter {A} (f g : A -> bool) (l : list A) :
  List.filter f (List.filter g l) = List.filter (fun x => g x && f x) l.
Proof.
  induction l as [|x r IH]; [reflexivity|].
  simpl. destruct (g x); simpl; [destruct (f x)|]; now rewrite IH.
Qed.

Lemma same_ID_same_story (l : list ch.Story.t) s t :
  List.NoDup (map ch.Story.ID l) -> In s l -> In t l ->
  ch.Story.ID s = ch.Story.ID t -> s = t.
Proof.
  induction l as [|x r IH]; intros Hnd Hs Ht E; [inversion Hs|].
  simpl in Hnd. apply NoDup_cons_iff in Hnd as [Hx Hr].
  destruct Hs as [->|Hs], Ht as [->|Ht]; auto.
  - exfalso. apply Hx. rewrite E. now apply in_map.
  - exfalso. apply Hx. rewrite <- E. now apply in_map.
Qed.

Lemma DeleteStory_quiet id w :
  faults w = [] ->
  exists w' err,
    DeleteStory id w = (w', Ok err)
    /\ faults w' = [] /\ next_story w' = next_story w
    /\ stories w'
       = List.filter (fun s => negb (Z.eqb (ch.Story.ID s) id)) (stories w).
Proof.
  intros Hq. unfold DeleteStory. rewrite bind_run, (remote_fails_quiet w Hq).
  destruct (existsb (fun s => Z.eqb (ch.Story.ID s) id) (stories w)) eqn:E.
  - do 2 eexists. split; [reflexivity|]. simpl. auto.
  - do 2 eexists. split; [reflexivity|]. repeat split; auto.
    symmetry. apply filter_all. intros x Hx.
    destruct (Z.eqb (ch.Story.ID x) id) eqn:Ex; [|reflexivity].
    assert (existsb (fun s => Z.eqb (ch.Story.ID s) id) (stories w) = true)
      by (apply existsb_exists; eauto).
    congruence.
Qed.

Lemma deleteMatchingStories_quiet snap opts c w :
  faults w = [] ->
  exists w',
    deleteMatchingStories snap opts c w = (w', Ok tt)
    /\ faults w' = [] /\ next_story w' = next_story w
    /\ stories w'
       = List.filter (fun t => negb (deleted_by snap c t)) (stories w).
Proof.
  unfold deleteMatchingStories.
  match goal with
  | |- context [for_each _ ?b] => set (body := b)
  end.
  revert w. induction snap as [|s r IH]; intros w Hq.
  - exists w. split; [reflexivity|]. repeat split; auto.
    symmetry. now apply filter_all.
  - cbn [for_each]. rewrite bind_run. unfold body at 1.
    destruct (String.eqb (ch.Story.Name s) (Card.Name c)) eqn:En.
    + rewrite bind_run.
      destruct (DeleteStory_quiet (ch.Story.ID s) w Hq)
        as (w1 & err & -> & Hq1 & Hn1 & Hs1).
      assert (Hstep : exists w2,
                 match err with
                 | Some _ =>
                     print (outputFormat (Card.ShortURL c) "Deleted Matching"
                              ("Story ID: " +:+ fmt_d (ch.Story.ID s)))
                 | None => ret tt
                 end w1 = (w2, Ok tt)
                 /\ faults w2 = [] /\ next_story w2 = next_story w1
                 /\ stories w2 = stories w1)
        by (destruct err; eexists; (split; [reflexivity|]); simpl; auto).
      destruct Hstep as (w2 & -> & Hq2 & Hn2 & Hs2).
      destruct (IH w2 Hq2) as (w' & -> & Hq' & Hn' & Hs').
      exists w'. split; [reflexivity|]. repeat split; auto; [congruence|].
      rewrite Hs', Hs2, Hs1, filter_filter. apply List.filter_ext.
      intros t. unfold deleted_by. cbn [existsb]. rewrite En.
      rewrite (Z.eqb_sym (ch.Story.ID t)). cbn [andb].
      now rewrite negb_orb.
    + cbn [ret].
      destruct (IH w Hq) as (w' & -> & Hq' & Hn' & Hs').
      exists w'. split; [reflexivity|]. repeat split; auto.
      rewrite Hs'. apply List.filter_ext.
      intros t. unfold deleted_by. cbn [existsb]. now rewrite En.
Qed.

Lemma CreateStory_quiet cs w :
  faults w = [] ->
  CreateStory cs w
  = (set_stories
       (stories w ++ [ch.Story.mk (next_story w) (ch.CreateStory.Name cs)
                        (ch.CreateStory.ProjectID cs)])
       (next_story w + 1) w,
     Ok (ch.Story.mk (next_story w) (ch.CreateStory.Name cs)
           (ch.CreateStory.ProjectID cs), None)).
Proof.
  intros Hq. unfold CreateStory.
  now rewrite bind_run, (remote_fails_quiet w Hq).
Qed.

Lemma not_deleted_when_fresh snap c t :
  Forall (fun s => ch.Story.ID s < ch.Story.ID t) snap ->
  deleted_by snap c t = false.
Proof.
  intros H. unfold deleted_by.
  destruct (existsb _ snap) eqn:E; [|reflexivity].
  apply existsb_exists in E as (s & Hs & Hb).
  rewrite List.Forall_forall in H. apply H in Hs.
  apply andb_true_iff in Hb as [_ Hb]. apply Z.eqb_eq in Hb. lia.
Qed.

Lemma In_created s n pid cards :
  In s (created n pid cards) ->
  n <= ch.Story.ID s < n + Z.of_nat (length cards)
  /\ ch.Story.ProjectID s = pid
  /\ exists c, In c cards /\ ch.Story.Name s = Card.Name c.
Proof.
  revert n. induction cards as [|c r IH]; intros n H; [inversion H|].
  destruct H as [<-|H].
  - cbn. split; [lia|]. split; [reflexivity|].
    exists c. split; [now left|reflexivity].
  - apply IH in H as (H1 & H2 & c' & H3 & H4).
    cbn [length]. split; [lia|]. split; [exact H2|].
    exists c'. split; [now right|exact H4].
Qed.

Lemma created_NoDup n pid cards :
  List.NoDup (map ch.Story.ID (created n pid cards)).
Proof.
  revert n. induction cards as [|c r IH]; intros n; [constructor|].
  cbn. constructor; [|apply IH].
  intros H. apply in_map_iff in H as (s & E & H).
  apply In_created in H. lia.
Qed.

Lemma filter_map_NoDup (f : ch.Story.t -> bool) l :
  List.NoDup (map ch.Story.ID l) ->
  List.NoDup (map ch.Story.ID (List.filter f l)).
Proof.
  induction l as [|x r IH]; intros H; [constructor|].
  cbn in H. apply NoDup_cons_iff in H as [Hx Hr].
  cbn. destruct (f x); [|now apply IH].
  cbn. constructor; [|now apply IH].
  intros Hin. apply Hx. apply in_map_iff in Hin as (s & E & Hs).
  apply filter_In in Hs as [Hs _]. rewrite <- E. now apply in_map.
Qed.

(** What one run makes of the store (see [import_run] below). *)
Lemma run_store_ok w w' pid cards :
  store_ok w ->
  stories w'
  = List.filter (fun t => negb (collides pid cards t)) (stories w)
    ++ created (next_story w) pid cards ->
  next_story w' = next_story w + Z.of_nat (length cards) ->
  store_ok w'.
Proof.
  intros [Hnd Hlt] Hs Hn. unfold store_ok. rewrite Hs, Hn. split.
  - rewrite map_app. apply List.NoDup_app.
    + now apply filter_map_NoDup.
    + apply created_NoDup.
    + intros a Ha Hb.
      apply in_map_iff in Ha as (s & <- & Hs1).
      apply in_map_iff in Hb as (t & E & Ht).
      apply filter_In in Hs1 as [Hs1 _]. apply In_created in Ht.
      rewrite List.Forall_forall in Hlt. apply Hlt in Hs1. lia.
  - apply List.Forall_app. split.
    + apply List.Forall_forall. intros s Hs1.
      apply filter_In in Hs1 as [Hs1 _].
      rewrite List.Forall_forall in Hlt. apply Hlt in Hs1. lia.
    + apply List.Forall_forall. intros s Hs1. apply In_created in Hs1. lia.
Qed.

Lemma one_card_per_name (c : Card.t) cards :
  List.NoDup (map Card.Name cards) -> In c cards ->
  length (List.filter (fun c' => String.eqb (Card.Name c') (Card.Name c)) cards)
  = 1%nat.
Proof.
  induction cards as [|x r IH]; intros Hnd Hin; [inversion Hin|].
  cbn in Hnd. apply NoDup_cons_iff in Hnd as [Hx Hr].
  cbn [List.filter]. destruct Hin as [->|Hin].
  - rewrite String.eqb_refl. cbn [length]. f_equal.
    rewrite filter_none; [reflexivity|].
    intros y Hy. apply String.eqb_neq. intros E.
    apply Hx. rewrite <- E. now apply in_map.
  - destruct (String.eqb_spec (Card.Name x) (Card.Name c)) as [E|E].
    + exfalso. apply Hx. rewrite E. now apply in_map.
    + now apply IH.
Qed.

Lemma created_named name n pid cards :
  length (List.filter
            (fun s => Z.eqb (ch.Story.ProjectID s) pid
                      && String.eqb (ch.Story.Name s) name)
            (created n pid cards))
  = length (List.filter (fun c' => String.eqb (Card.Name c') name) cards).
Proof.
  revert n. induction cards as [|x r IH]; intros n; [reflexivity|].
  cbn. rewrite Z.eqb_refl. cbn [andb].
  destruct (String.eqb (Card.Name x) name); cbn [length]; now rewrite IH.
Qed.

(** After a run, none of the former records under a card's name is
    left, and exactly one record carries that name. *)
Lemma run_effect w w' pid cards (c : Card.t) :
  store_ok w ->
  stories w'
  = List.filter (fun t => negb (collides pid cards t)) (stories w)
    ++ created (next_story w) pid cards ->
  List.NoDup (map Card.Name cards) -> In c cards ->
  (forall s, In s (records_named (Card.Name c) pid w) -> ~ In s (stories w'))
  /\ length (records_named (Card.Name c) pid w') = 1%nat.
Proof.
  intros [Hnd Hlt] Hs Hnames Hc. split.
  - intros s Hin Hin'. unfold records_named in Hin.
    apply filter_In in Hin as [Hin Hb].
    apply andb_true_iff in Hb as [Hp Hname].
    rewrite Hs in Hin'. apply in_app_or in Hin' as [H|H].
    + apply filter_In in H as [_ H]. apply negb_true_iff in H.
      unfold collides in H. rewrite Hp in H. cbn [andb] in H.
      assert (existsb (fun c0 => String.eqb (ch.Story.Name s) (Card.Name c0)) cards
              = true) by (apply existsb_exists; exists c; auto).
      congruence.
    + apply In_created in H. rewrite List.Forall_forall in Hlt.
      apply Hlt in Hin. lia.
  - unfold records_named. rewrite Hs, List.filter_app, List.length_app.
    rewrite filter_filter, filter_none.
    + rewrite created_named. cbn [length]. now apply one_card_per_name.
    + intros t _. unfold collides.
      destruct (Z.eqb (ch.Story.ProjectID t) pid); [|reflexivity].
      destruct (String.eqb_spec (ch.Story.Name t) (Card.Name c)) as [E|E];
        [|now rewrite andb_false_r].
      assert (existsb (fun c0 => String.eqb (ch.Story.Name t) (Card.Name c0)) cards
              = true) as ->.
      { apply existsb_exists. exists c. split; [exact Hc|].
        now apply String.eqb_eq. }
      reflexivity.
Qed.

Section ImportFacts.

Variable UserMap : Type.
Variable GetCreator : UserMap -> string -> string.

Local Abbreviation Import := (ImportCardsIntoClubhouse UserMap GetCreator).

(** The loop over the cards, when no call fails and every comment has
    its date: each card's duplicates in the listing go, then its story
    is appended. *)
Lemma import_loop snap opts um cards w :
  faults w = [] ->
  Forall dated cards ->
  Forall (fun s => ch.Story.ID s < next_story w) snap ->
  exists w',
    for_each cards
      (fun c =>
         exec deleteMatchingStories snap opts c in
         let* cs := buildClubhouseStory UserMap GetCreator c opts um in
         let* '(st, err) := CreateStory cs in
         match err with
         | Some e => print (outputFormat (Card.ShortURL c) "Failed" e)
         | None =>
             print (outputFormat (Card.ShortURL c) "Success"
                      ("Story ID: " +:+ fmt_d (ch.Story.ID st)))
         end) w
    = (w', Ok tt)
    /\ faults w' = []
    /\ next_story w' = next_story w + Z.of_nat (length cards)
    /\ stories w'
       = List.filter
           (fun t => negb (existsb (fun c => deleted_by snap c t) cards))
           (stories w)
         ++ created (next_story w) (Project_ID opts) cards.
Proof.
  match goal with
  | |- context [for_each _ ?b] => set (body := b)
  end.
  revert w. induction cards as [|c r IH]; intros w Hq Hd Hsnap.
  - exists w. split; [reflexivity|]. repeat split; auto.
    + simpl. lia.
    + cbn [created existsb negb]. rewrite app_nil_r.
      symmetry. now apply filter_all.
  - inversion Hd as [|? ? Hc Hr]; subst.
    cbn [for_each]. rewrite bind_run. unfold body at 1.
    rewrite bind_run.
    destruct (deleteMatchingStories_quiet snap opts c w Hq)
      as (w1 & -> & Hq1 & Hn1 & Hs1).
    rewrite bind_run.
    pose proof (buildClubhouseStory_run UserMap GetCreator c opts um w1) as Hb.
    destruct (comments_of_dated UserMap GetCreator um c Hc) as (l & El).
    rewrite El in Hb. destruct Hb as (w2 & ids & -> & Hs2 & Hn2 & Hq2).
    specialize (Hq2 Hq1).
    rewrite bind_run, (CreateStory_quiet _ w2 Hq2).
    cbn [ch.CreateStory.Name ch.CreateStory.ProjectID ch.Story.ID].
    match goal with
    | |- context [print ?line ?w3] =>
        change (print line w3) with (set_console (console w3 ++ [line]) w3, Ok tt);
        set (w4 := set_console (console w3 ++ [line]) w3)
    end.
    assert (Hq4 : faults w4 = []) by exact Hq2.
    assert (Hn4 : next_story w4 = next_story w + 1)
      by (cbn; congruence).
    assert (Hs4 : stories w4
                  = List.filter (fun t => negb (deleted_by snap c t)) (stories w)
                    ++ [ch.Story.mk (next_story w) (Card.Name c) (Project_ID opts)])
      by (cbn; congruence).
    destruct (IH w4 Hq4 Hr) as (w' & -> & Hq' & Hn' & Hs').
    { rewrite Hn4. eapply List.Forall_impl; [|exact Hsnap]. cbn. intros; lia. }
    exists w'. split; [reflexivity|]. split; [exact Hq'|]. split.
    + rewrite Hn', Hn4. cbn [length]. lia.
    + rewrite Hs', Hs4, Hn4, List.filter_app, filter_filter.
      cbn [created]. rewrite <- app_assoc. f_equal.
      * apply List.filter_ext. intros t. cbn [existsb].
        now rewrite negb_orb.
      * rewrite filter_all; [reflexivity|]. intros t [<-|[]].
        apply negb_true_iff.
        destruct (existsb _ r) eqn:E; [|reflexivity].
        apply existsb_exists in E as (c' & _ & E).
        rewrite not_deleted_when_fresh in E; [discriminate|exact Hsnap].
Qed.

(** One run on a sound store, when no call fails and every comment
    has its date: the stories of the project under the name of a card
    are gone, and one story per card is appended. *)
Lemma import_run opts um cards w :
  store_ok w -> faults w = [] -> Forall dated cards ->
  exists w',
    Import cards opts um w = (w', Ok tt)
    /\ faults w' = []
    /\ next_story w' = next_story w + Z.of_nat (length cards)
    /\ stories w'
       = List.filter (fun t => negb (collides (Project_ID opts) cards t))
           (stories w)
         ++ created (next_story w) (Project_ID opts) cards.
Proof.
  intros Hok Hq Hd. pose proof Hok as [Hnd Hlt].
  unfold ImportCardsIntoClubhouse.
  rewrite bind_run. cbn [print]. rewrite bind_run. cbn [print].
  match goal with
  | |- context [bind (ListStories _) _ ?w0] => set (wp := w0)
  end.
  assert (Hqp : faults wp = []) by exact Hq.
  rewrite bind_run. unfold ListStories at 1.
  rewrite bind_run, (remote_fails_quiet wp Hqp).
  change (stories wp) with (stories w).
  set (snap := List.filter
                 (fun s => Z.eqb (ch.Story.ProjectID s) (Project_ID opts))
                 (stories w)).
  destruct (import_loop snap opts um cards wp Hqp Hd)
    as (w' & Hrun & Hq' & Hn' & Hs').
  { apply List.Forall_forall. intros s Hs. apply filter_In in Hs as [Hs _].
    rewrite List.Forall_forall in Hlt. now apply Hlt. }
  exists w'. split; [exact Hrun|]. split; [exact Hq'|].
  split; [exact Hn'|]. rewrite Hs'.
  change (stories wp) with (stories w).
  change (next_story wp) with (next_story w). f_equal.
  apply filter_ext_in. intros t Ht. f_equal. unfold collides.
  apply eq_true_iff_eq. rewrite andb_true_iff, !existsb_exists. split.
  - intros (c & Hc & Hdel). unfold deleted_by in Hdel.
    apply existsb_exists in Hdel as (s & Hs & Hb).
    apply andb_true_iff in Hb as [Hname Hid].
    apply Z.eqb_eq in Hid. apply filter_In in Hs as [Hs Hp].
    assert (s = t) as -> by (eapply same_ID_same_story; eauto).
    split; [exact Hp|]. exists c. auto.
  - intros (Hp & c & Hc & Hname). exists c. split; [exact Hc|].
    unfold deleted_by. apply existsb_exists. exists t. split.
    + apply filter_In. auto.
    + now rewrite Hname, Z.eqb_refl.
Qed.

(** C1 (amended): on a store with unique identifiers, when no remote
    call fails, every comment has its date and the card names of the
    batch are pairwise distinct, a run deletes every record of the
    project that carries the name of a card and creates the card's
    story; after the first run and again after the second there is
    exactly one record per card name, the second run having deleted
    the records the first one made. *)
Theorem import_twice_one_record_per_name
    (cards : list Card.t) (opts : ClubhouseOptions) (um : UserMap)
    (w : World) :
  store_ok w -> faults w = [] -> Forall dated cards ->
  List.NoDup (map Card.Name cards) ->
  exists w1 w2,
    Import cards opts um w = (w1, Ok tt)
    /\ Import cards opts um w1 = (w2, Ok tt)
    /\ forall c, In c cards ->
         (forall s, In s (records_named (Card.Name c) (Project_ID opts) w) ->
                    ~ In s (stories w1))
         /\ length (records_named (Card.Name c) (Project_ID opts) w1) = 1%nat
         /\ (forall s, In s (records_named (Card.Name c) (Project_ID opts) w1) ->
                       ~ In s (stories w2))
         /\ length (records_named (Card.Name c) (Project_ID opts) w2) = 1%nat.
Proof.
  intros Hok Hq Hd Hnames.
  destruct (import_run opts um cards w Hok Hq Hd)
    as (w1 & Hrun1 & Hq1 & Hn1 & Hs1).
  assert (Hok1 : store_ok w1) by (eapply run_store_ok; eauto).
  destruct (import_run opts um cards w1 Hok1 Hq1 Hd)
    as (w2 & Hrun2 & Hq2 & Hn2 & Hs2).
  exists w1, w2. split; [exact Hrun1|]. split; [exact Hrun2|].
  intros c Hc.
  destruct (run_effect w w1 (Project_ID opts) cards c Hok Hs1 Hnames Hc)
    as [Ha Hb].
  destruct (run_effect w1 w2 (Project_ID opts) cards c Hok1 Hs2 Hnames Hc)
    as [Ha' Hb'].
  auto.
Qed.

End ImportFacts.

(** C1 as stated fails on a batch with two cards of one name: the
    listing is taken once, before the loop, so the second card cannot
    see the story made for the first, and after two runs two records
    carry the name. *)
Lemma import_twice_same_name_two_records :
  store_ok empty_world /\ faults empty_world = []
  /\ Forall dated [card_login; card_login_again]
  /\ exists w1 w2,
       ImportCardsIntoClubhouse (gmap string string) tableGetCreator
         [card_login; card_login_again] sample_opts sample_users empty_world
       = (w1, Ok tt)
       /\ ImportCardsIntoClubhouse (gmap string string) tableGetCreator
            [card_login; card_login_again] sample_opts sample_users w1
          = (w2, Ok tt)
       /\ length (records_named "Fix login bug" 7 w2) = 2%nat
       /\ length (records_named "Fix login bug" 7 w2) <> 1%nat.
Proof.
  split; [split; constructor|]. split; [reflexivity|].
  split; [repeat constructor; discriminate|].
  do 2 eexists. split; [vm_compute; reflexivity|].
  split; [vm_compute; reflexivity|].
  split; [vm_compute; reflexivity|]. vm_compute. discriminate.
Qed.

Lemma import_twice_witness :
  exists w1 w2,
    ImportCardsIntoClubhouse (gmap string string) tableGetCreator
      [card_login; card_docs] sample_opts sample_users used_world
    = (w1, Ok tt)
    /\ ImportCardsIntoClubhouse (gmap string string) tableGetCreator
         [card_login; card_docs] sample_opts sample_users w1
       = (w2, Ok tt)
    /\ forall c, In c [card_login; card_docs] ->
         (forall s, In s (records_named (Card.Name c) (Project_ID sample_opts)
                            used_world) ->
                    ~ In s (stories w1))
         /\ length (records_named (Card.Name c) (Project_ID sample_opts) w1)
            = 1%nat
         /\ (forall s, In s (records_named (Card.Name c) (Project_ID sample_opts)
                               w1) ->
                       ~ In s (stories w2))
         /\ length (records_named (Card.Name c) (Project_ID sample_opts) w2)
            = 1%nat.
Proof.
  apply (import_twice_one_record_per_name (gmap string string) tableGetCreator
           [card_login; card_docs] sample_opts sample_users used_world).
  - split.
    + repeat constructor; simpl; intuition discriminate.
    + repeat constructor.
  - reflexivity.
  - repeat constructor; discriminate.
  - repeat constructor; simpl; intuition discriminate.
Defined.

(** *** Comments without a date *)
Section CommentDates.

Variable time_Parse : string -> string -> Time * option error.
Variable UserMap : Type.
Variable GetCreator : UserMap -> string -> string.

Lemma parse_failure_nil strDate :
  snd (time_Parse dateLayout strDate) <> None ->
  parseDateOrReturnNil time_Parse strDate = None.
Proof.
  unfold parseDateOrReturnNil.
  destruct (time_Parse dateLayout strDate) as [d [e|]]; [reflexivity|].
  intros H. now contradiction H.
Qed.

(** C9: [buildComments] dereferences the date of every comment: it
    panics with a nil dereference exactly when some comment of the card
    has no date, and returns the comments when all have one.  The
    normalizer makes such a comment from every text comment whose date
    does not parse. *)
Theorem buildComments_nil_dereference :
  (forall card add um w,
      snd (buildComments UserMap GetCreator card add um w)
      = Crash NilDereference
      <-> Exists (fun cm => Comment.CreatedAt cm = None) (Card.Comments card))
  /\ (forall card add um w,
         dated card ->
         exists l, snd (buildComments UserMap GetCreator card add um w) = Ok l)
  /\ (forall tcard a w,
         In a (fst (trello.Actions tcard)) ->
         isTextComment a = true ->
         snd (time_Parse dateLayout (trello.Date a)) <> None ->
         exists creator createdAt comments,
           snd (getCommentsAndCardCreator time_Parse tcard w)
           = Ok (creator, createdAt, comments)
           /\ In (Comment.mk (trello.Text (trello.Data a))
                    (trello.Id (trello.MemberCreator a))
                    (trello.FullName (trello.MemberCreator a)) None)
                comments).
Proof.
  split; [|split].
  - intros card add um w. rewrite buildComments_run.
    rewrite <- (comments_of_none UserMap GetCreator um).
    destruct (mapped_comments GetCreator um (Card.Comments card)) as [l|].
    + destruct add; cbn; split; discriminate.
    + cbn. split; reflexivity.
  - intros card add um w Hd. rewrite buildComments_run.
    destruct (comments_of_dated UserMap GetCreator um card Hd) as (l & ->).
    destruct add; eexists; reflexivity.
  - intros tcard a w Hin Hc Hp.
    rewrite getCommentsAndCardCreator_result, scan_actions.
    do 3 eexists. split; [reflexivity|].
    cbn [app]. apply in_map_iff. exists a. split.
    + unfold commentOfAction. now rewrite parse_failure_nil.
    + apply filter_In. auto.
Qed.

End CommentDates.

Lemma buildComments_nil_dereference_witness :
  (exists l,
      snd (buildComments (gmap string string) tableGetCreator card_login true
             sample_users empty_world) = Ok l)
  /\ exists creator createdAt comments,
       snd (getCommentsAndCardCreator strictParse
              (trello_card [undated_comment] []) empty_world)
       = Ok (creator, createdAt, comments)
       /\ In (Comment.mk "LGTM" "u1" "User One" None) comments.
Proof.
  pose proof (buildComments_nil_dereference strictParse (gmap string string)
                tableGetCreator) as (_ & H2 & H3).
  split.
  - apply H2. repeat constructor. discriminate.
  - apply (H3 (trello_card [undated_comment] []) undated_comment empty_world).
    + now left.
    + reflexivity.
    + vm_compute. discriminate.
Defined.

(** *** The attachment relocator *)

Lemma sanitize_unchanged_witness : sanitize "notes_v2.txt" = "notes_v2.txt".
Proof.
  apply (proj2 (proj2 sanitize_replaces_maximal_runs) "notes_v2.txt").
  reflexivity.
Defined.

Lemma dropbox_post_returns endpoint req w :
  exists w' r, dropbox_post endpoint req w = (w', Ok r).
Proof.
  unfold dropbox_post.
  destruct (String.eqb endpoint "sharing/create_shared_link_with_settings").
  - destruct (links_of (Path req) w); do 2 eexists; reflexivity.
  - destruct (String.eqb endpoint "/sharing/list_shared_links");
      do 2 eexists; reflexivity.
Qed.

Lemma call_returns req endpoint w :
  exists w' r, call req endpoint w = (w', Ok r).
Proof.
  unfold call. rewrite bind_run. unfold remote_fails.
  destruct (faults w) as [|[|] fs].
  - apply dropbox_post_returns.
  - do 2 eexists. reflexivity.
  - apply dropbox_post_returns.
Qed.

(** Whatever the service answers, the lookup hands back a nil pointer
    and no error. *)
Lemma getSharedLinks_nil path w :
  snd (getSharedLinks path w) = Ok (None, None).
Proof.
  unfold getSharedLinks. rewrite bind_run.
  destruct (call_returns {| Path := path |} "/sharing/list_shared_links" w)
    as (w' & r & ->).
  reflexivity.
Qed.

Lemma createShareLink_nil path w :
  snd (createShareLink path w) = Ok (None, None).
Proof.
  unfold createShareLink. rewrite bind_run.
  destruct (call_returns {| Path := path |}
              "sharing/create_shared_link_with_settings" w)
    as (w' & r & ->).
  reflexivity.
Qed.

(** With at least one attachment the relocator never returns a map: the
    run stops at the first attachment, by a fatal exit when the download
    fails and by a nil dereference otherwise. *)
Lemma relocator_never_returns card a rest w :
  trello.Attachments card = (a :: rest, None) ->
  exists c, snd (downloadCardAttachmentsUploadToDropbox card w) = Crash c.
Proof.
  intros E. unfold downloadCardAttachmentsUploadToDropbox. rewrite E.
  rewrite bind_run. cbn [ret fold_range_indexed]. rewrite bind_run.
  rewrite bind_run. unfold downloadTrelloAttachment at 1.
  rewrite bind_run. unfold http_Get at 1. rewrite bind_run.
  unfold remote_fails at 1.
  destruct (faults w) as [|[|] fs] eqn:Ef.
  - cbn [ret deref]. rewrite bind_run. cbn [time_Now]. rewrite bind_run.
    unfold Files_Upload at 1. rewrite bind_run. unfold remote_fails at 1.
    cbn [faults set_ticks]. rewrite Ef. cbn [ret]. rewrite bind_run. cbn [deref ret].
    rewrite bind_run.
    match goal with
    | |- context [getSharedLinks ?p ?w1] =>
        pose proof (getSharedLinks_nil p w1) as Hg;
        destruct (getSharedLinks p w1) as [w2 r]
    end.
    cbn [snd] in Hg. subst r. cbn [deref]. rewrite bind_run.
    eexists. reflexivity.
  - eexists. reflexivity.
  - cbn [ret deref]. rewrite bind_run. cbn [time_Now]. rewrite bind_run.
    unfold Files_Upload at 1. rewrite bind_run. unfold remote_fails at 1.
    cbn [faults set_ticks set_faults].
    destruct fs as [|[|] fs'].
    + cbn [ret]. rewrite bind_run. cbn [deref ret]. rewrite bind_run.
      match goal with
      | |- context [getSharedLinks ?p ?w1] =>
          pose proof (getSharedLinks_nil p w1) as Hg;
          destruct (getSharedLinks p w1) as [w2 r]
      end.
      cbn [snd] in Hg. subst r. cbn [deref]. rewrite bind_run.
      eexists. reflexivity.
    + eexists. reflexivity.
    + cbn [ret]. rewrite bind_run. cbn [deref ret]. rewrite bind_run.
      match goal with
      | |- context [getSharedLinks ?p ?w1] =>
          pose proof (getSharedLinks_nil p w1) as Hg;
          destruct (getSharedLinks p w1) as [w2 r]
      end.
      cbn [snd] in Hg. subst r. cbn [deref]. rewrite bind_run.
      eexists. reflexivity.
Qed.

(** C2: the relocator is to look up the shared links of the uploaded
    path and reuse the first one.  Here a link for the path exists, yet
    the run reuses nothing: [getSharedLinks] returns a nil pointer
    whatever the service answers, and reading [links.Links] panics. *)
Theorem relocator_existing_link_not_reused :
  links_of "/trello/l1/c1/0_My_File_1.png" shared_world
  = [{| URL := "https://www.dropbox.com/s/trello/l1/c1/0_My_File_1.png";
        PathLower := "/trello/l1/c1/0_My_File_1.png" |}]
  /\ attachmentPath (trello_card [] one_attachment) 0 (sanitize "My File #1.png")
     = "/trello/l1/c1/0_My_File_1.png"
  /\ snd (downloadCardAttachmentsUploadToDropbox
            (trello_card [] one_attachment) shared_world)
     = Crash NilDereference
  /\ (forall path w, snd (getSharedLinks path w) = Ok (None, None)).
Proof.
  split; [reflexivity|]. split; [reflexivity|].
  split; [vm_compute; reflexivity|]. apply getSharedLinks_nil.
Qed.

(** C10: two attachments of one card whose names sanitize to the same
    name.  The map is keyed by that name, but no map comes back: the run
    panics at the first attachment, before any entry is written. *)
Theorem relocator_clashing_names_no_map :
  sanitize "a b.png" = "a_b.png" /\ sanitize "a#b.png" = "a_b.png"
  /\ snd (downloadCardAttachmentsUploadToDropbox
            (trello_card [] clashing_attachments) empty_world)
     = Crash NilDereference.
Proof.
  split; [reflexivity|]. split; [reflexivity|]. vm_compute. reflexivity.
Qed.

(** The other revision does what C2 and C10 describe: a second run
    reuses the link of the first and adds none, and of two attachments
    with one sanitized name the later one's link stays in the map. *)
Lemma library_sharing_reuses_link :
  exists w1 w2 links,
    LibrarySharing.downloadCardAttachmentsUploadToDropbox
      (trello_card [] one_attachment) empty_world = (w1, Ok links)
    /\ LibrarySharing.downloadCardAttachmentsUploadToDropbox
         (trello_card [] one_attachment) w1 = (w2, Ok links)
    /\ links = {[ "My_File_1.png" := "https://db.tt/trello/l1/c1/0_My_File_1.png" ]}
    /\ shared_links w2 = shared_links w1
    /\ length (shared_links w1) = 1%nat.
Proof.
  do 3 eexists. split; [vm_compute; reflexivity|].
  split; [vm_compute; reflexivity|].
  split; [vm_compute; reflexivity|]. split; reflexivity.
Qed.

Lemma library_sharing_later_overwrites :
  snd (LibrarySharing.downloadCardAttachmentsUploadToDropbox
         (trello_card [] clashing_attachments) empty_world)
  = Ok {[ "a_b.png" := "https://db.tt/trello/l1/c1/1_a_b.png" ]}.
Proof. vm_compute. reflexivity. Qed.

(** *** More on file names and paths *)

Lemma replaceRuns_allowed b s :
  all_chars (fun c => negb (safeFileNameClass c))
    (replaceRuns safeFileNameClass "_" b s) = true.
Proof.
  revert b. induction s as [|c r IH]; intros b; [reflexivity|].
  cbn [replaceRuns]. destruct (safeFileNameClass c) eqn:Ec.
  - destruct b; [apply IH|].
    change (all_chars (fun c => negb (safeFileNameClass c))
              (String "_" (replaceRuns safeFileNameClass "_" true r)) = true).
    cbn [all_chars]. rewrite IH. reflexivity.
  - cbn [all_chars]. now rewrite Ec, IH.
Qed.

Lemma replaceRuns_length b s :
  (String.length (replaceRuns safeFileNameClass "_" b s) <= String.length s)%nat.
Proof.
  revert b. induction s as [|c r IH]; intros b; [apply Nat.le_refl|].
  cbn [replaceRuns]. destruct (safeFileNameClass c).
  - destruct b.
    + cbn [String.length]. specialize (IH true). lia.
    + change (String.length
                (String "_" (replaceRuns safeFileNameClass "_" true r))
              <= S (String.length r))%nat.
      cbn [String.length]. specialize (IH true). lia.
  - cbn [String.length]. specialize (IH false). lia.
Qed.

Lemma replaceRuns_nonempty b c r :
  b = false \/ safeFileNameClass c = false ->
  replaceRuns safeFileNameClass "_" b (String c r) <> EmptyString.
Proof.
  intros H. cbn [replaceRuns]. destruct (safeFileNameClass c).
  - destruct b; [destruct H; discriminate|].
    change (String "_" (replaceRuns safeFileNameClass "_" true r) <> "").
    discriminate.
  - discriminate.
Qed.

(** X1: A sanitized name is storage-safe: it holds only characters of
    [[A-Za-z0-9_.]], and sanitizing it again changes nothing. *)
Theorem sanitize_allowed_and_idempotent (name : string) :
  all_chars (fun c => negb (safeFileNameClass c)) (sanitize name) = true
  /\ sanitize (sanitize name) = sanitize name.
Proof.
  split; [apply replaceRuns_allowed|].
  apply replaceRuns_safe, replaceRuns_allowed.
Qed.

(** X2: Sanitizing never lengthens a name, and only the empty name becomes
    empty. *)
Theorem sanitize_length (name : string) :
  (String.length (sanitize name) <= String.length name)%nat
  /\ (sanitize name = "" <-> name = "").
Proof.
  split; [apply replaceRuns_length|]. split.
  - destruct name as [|c r]; [reflexivity|]. intros H.
    exfalso. revert H. apply replaceRuns_nonempty. now left.
  - now intros ->.
Qed.

Lemma uint_digits d :
  all_chars (between "0" "9") (NilEmpty.string_of_uint d) = true.
Proof. induction d; cbn; auto. Qed.

Lemma fmt_d_digits (n : nat) :
  all_chars (between "0" "9") (fmt_d (Z.of_nat n)) = true.
Proof.
  unfold fmt_d. destruct (Z.of_nat n) eqn:E; try lia; cbn.
  - reflexivity.
  - destruct (Pos.to_uint p); [reflexivity|..]; apply (uint_digits (_ _)).
Qed.

Lemma fmt_d_inj (i j : nat) : fmt_d (Z.of_nat i) = fmt_d (Z.of_nat j) -> i = j.
Proof.
  unfold fmt_d. intros H.
  assert (Hn : forall n, Z.to_int (Z.of_nat n) <> Decimal.Pos Decimal.Nil
                         /\ Z.to_int (Z.of_nat n) <> Decimal.Neg Decimal.Nil).
  { intros n. destruct (Z.of_nat n) eqn:E; cbn; split; try discriminate.
    - intros Hp. injection Hp as Hp.
      now apply DecimalPos.Unsigned.to_uint_nonnil in Hp.
    - intros Hp. injection Hp as Hp.
      now apply DecimalPos.Unsigned.to_uint_nonnil in Hp. }
  apply (f_equal NilZero.int_of_string) in H.
  rewrite !NilZero.isi in H by apply Hn.
  injection H as H. apply DecimalZ.to_int_inj in H. lia.
Qed.

Lemma append_cancel (p a b : string) : p +:+ a = p +:+ b -> a = b.
Proof.
  induction p as [|c r IH]; cbn; intros H; [exact H|].
  injection H as H. now apply IH.
Qed.

Lemma digits_split (d1 d2 n1 n2 : string) :
  all_chars (between "0" "9") d1 = true ->
  all_chars (between "0" "9") d2 = true ->
  d1 +:+ "_" +:+ n1 = d2 +:+ "_" +:+ n2 -> d1 = d2 /\ n1 = n2.
Proof.
  revert d2. induction d1 as [|c r IH]; intros [|c' r'] H1 H2 E; cbn in *.
  - injection E as E. auto.
  - injection E as Ec E. subst c'. discriminate.
  - injection E as Ec E. subst c. discriminate.
  - injection E as Ec E. subst c'.
    apply andb_true_iff in H1 as [_ H1]. apply andb_true_iff in H2 as [_ H2].
    destruct (IH r' H1 H2 E) as [-> ->]. auto.
Qed.

(** X3: The upload path of an attachment determines its index and its
    sanitized name: two attachments of a card never share a path, even
    when their names sanitize to the same name. *)
Theorem attachmentPath_injective (card : trello.Card) (i j : nat)
    (name1 name2 : string) :
  attachmentPath card i name1 = attachmentPath card j name2 ->
  i = j /\ name1 = name2.
Proof.
  unfold attachmentPath. intros H.
  do 5 apply append_cancel in H.
  apply digits_split in H as [Hd Hn]; try apply fmt_d_digits.
  split; [now apply fmt_d_inj|exact Hn].
Qed.

Lemma attachmentPath_injective_witness :
  0%nat = 0%nat /\ "a_b.png" = "a_b.png".
Proof.
  apply (attachmentPath_injective (trello_card [] clashing_attachments)
           0 0 "a_b.png" "a_b.png").
  reflexivity.
Defined.

(** *** More on the normalizer *)

Lemma labels_map (card : trello.Card) :
  getLabelsFlattenFromCard card = map trello.LabelName (trello.Labels card).
Proof.
  unfold getLabelsFlattenFromCard.
  enough (H : forall l acc,
             fold_left (fun labels x => labels ++ [trello.LabelName x]) l acc
             = acc ++ map trello.LabelName l) by apply (H _ []).
  induction l as [|x r IH]; intros acc; cbn.
  - now rewrite app_nil_r.
  - now rewrite IH, <- app_assoc.
Qed.

Lemma filter_partition_length {A} (f : A -> bool) (l : list A) :
  (length (List.filter f l) + length (List.filter (fun x => negb (f x)) l)
   = length l)%nat.
Proof.
  induction l as [|x r IH]; [reflexivity|].
  cbn. destruct (f x); cbn; lia.
Qed.

(** X4: The labels of a card are the names of its label objects, in order,
    duplicates kept. *)
Theorem labels_flattened_in_order (card : trello.Card) :
  getLabelsFlattenFromCard card = map trello.LabelName (trello.Labels card)
  /\ length (getLabelsFlattenFromCard card) = length (trello.Labels card).
Proof.
  rewrite labels_map. split; [reflexivity|apply length_map].
Qed.

Section MoreNormalizerFacts.

Variable time_Parse : string -> string -> Time * option error.

(** X5: Every event is either turned into a comment or not: the comments and
    the events that are no text comment add up to the action list, so
    there are never more comments than events. *)
Theorem comments_and_other_events (card : trello.Card) (w : World) :
  exists creator createdAt comments,
    snd (getCommentsAndCardCreator time_Parse card w)
    = Ok (creator, createdAt, comments)
    /\ (length comments
        + length (List.filter (fun a => negb (isTextComment a))
                    (fst (trello.Actions card)))
        = length (fst (trello.Actions card)))%nat.
Proof.
  rewrite getCommentsAndCardCreator_result, scan_actions.
  do 3 eexists. split; [reflexivity|].
  cbn [app]. rewrite length_map. apply filter_partition_length.
Qed.

Lemma scan_ignores_others actions st :
  fold_left (scanAction time_Parse) (List.filter isScanned actions) st
  = fold_left (scanAction time_Parse) actions st.
Proof.
  revert st. induction actions as [|a l IH]; intros st; [reflexivity|].
  cbn [List.filter]. unfold isScanned at 1.
  destruct st as [[creator createdAt] comments].
  destruct (isTextComment a) eqn:Et; cbn [orb].
  - cbn [fold_left]. apply IH.
  - destruct (isCreateCard a) eqn:Ec.
    + cbn [fold_left]. apply IH.
    + cbn [fold_left]. rewrite scan_step, Et, Ec. apply IH.
Qed.

(** X6: Only the creation events and the text comments count: two cards
    whose action lists agree on these get the same creator, date and
    comments, whatever other events they have. *)
Theorem scan_depends_on_scanned_events (card1 card2 : trello.Card)
    (w1 w2 : World) :
  List.filter isScanned (fst (trello.Actions card1))
  = List.filter isScanned (fst (trello.Actions card2)) ->
  snd (getCommentsAndCardCreator time_Parse card1 w1)
  = snd (getCommentsAndCardCreator time_Parse card2 w2).
Proof.
  intros H. rewrite !getCommentsAndCardCreator_result.
  rewrite <- (scan_ignores_others (fst (trello.Actions card1))).
  rewrite <- (scan_ignores_others (fst (trello.Actions card2))).
  now rewrite H.
Qed.

End MoreNormalizerFacts.

Lemma scan_depends_on_scanned_events_witness :
  snd (getCommentsAndCardCreator strictParse
         (trello_card [move_event; undated_comment] []) empty_world)
  = snd (getCommentsAndCardCreator strictParse
           (trello_card [undated_comment] []) used_world).
Proof.
  apply (scan_depends_on_scanned_events strictParse
           (trello_card [move_event; undated_comment] [])
           (trello_card [undated_comment] []) empty_world used_world).
  reflexivity.
Defined.

(** *** The export of a batch *)

Lemma console_only_refl w : console_only w w.
Proof. unfold console_only. now destruct w. Qed.

Lemma console_only_trans w1 w2 w3 :
  console_only w1 w2 -> console_only w2 w3 -> console_only w1 w3.
Proof. unfold console_only. intros -> ->. reflexivity. Qed.

Lemma console_only_print line w : console_only w (fst (print line w)).
Proof. reflexivity. Qed.

Section ExportFacts.

Variable time_Parse : string -> string -> Time * option error.

Lemma getCommentsAndCardCreator_run card w :
  exists w',
    getCommentsAndCardCreator time_Parse card w
    = (w', Ok (fold_left (scanAction time_Parse) (fst (trello.Actions card))
                 ("", None, [])))
    /\ console_only w w'.
Proof.
  unfold getCommentsAndCardCreator.
  destruct (trello.Actions card) as [actions [e|]]; eexists;
    (split; [reflexivity|]).
  - apply (console_only_print _ w).
  - apply console_only_refl.
Qed.

Lemma getCheckListsForCard_run card w :
  exists w',
    getCheckListsForCard card w
    = (w', Ok (flat_map
                 (fun cl => map (checkItemTask cl) (trello.CheckItems cl))
                 (fst (trello.Checklists card))))
    /\ console_only w w'.
Proof.
  unfold getCheckListsForCard.
  destruct (trello.Checklists card) as [checklists [e|]];
    cbn [fst bind print ret]; rewrite checklists_tasks; eexists;
    (split; [reflexivity|]).
  - apply (console_only_print _ w).
  - apply console_only_refl.
Qed.

Lemma export_loop_without_images opts crds acc w :
  ProcessImages opts = false ->
  exists w',
    fold_range crds acc
      (fun cards card =>
         let labels := getLabelsFlattenFromCard card in
         let dueDate := parseDateOrReturnNil time_Parse (trello.Due card) in
         let* '(idCreator, createdAt, comments) :=
           getCommentsAndCardCreator time_Parse card in
         let* tasks := getCheckListsForCard card in
         let* attachments :=
           if ProcessImages opts
           then downloadCardAttachmentsUploadToDropbox card
           else ret ∅ in
         ret (cards ++ [Card.mk (trello.Name card) (trello.Desc card) labels
                          dueDate idCreator (trello.IdMembers card) createdAt
                          comments tasks (trello.Pos card)
                          (trello.ShortUrl card) attachments])) w
    = (w', Ok (acc ++ map (normalized time_Parse) crds))
    /\ console_only w w'.
Proof.
  intros Hi.
  match goal with
  | |- context [fold_range _ _ ?b] => set (body := b)
  end.
  revert acc w. induction crds as [|card r IH]; intros acc w.
  - exists w. cbn. rewrite app_nil_r. split; [reflexivity|].
    apply console_only_refl.
  - cbn [fold_range]. rewrite bind_run. unfold body at 1. cbv zeta.
    rewrite bind_run.
    destruct (getCommentsAndCardCreator_run card w) as (w1 & -> & F1).
    destruct (fold_left (scanAction time_Parse) (fst (trello.Actions card))
                ("", None, [])) as [[creator createdAt] comments] eqn:Es.
    rewrite bind_run.
    destruct (getCheckListsForCard_run card w1) as (w2 & -> & F2).
    rewrite Hi, bind_run. cbn [ret].
    match goal with
    | |- context [fold_range r ?acc' body w2] =>
        destruct (IH acc' w2) as (w' & -> & F3)
    end.
    exists w'. split.
    + f_equal. f_equal. rewrite <- app_assoc. f_equal. cbn [map app].
      f_equal. unfold normalized. now rewrite Es, labels_map.
    + eapply console_only_trans; [exact F1|].
      eapply console_only_trans; eassumption.
Qed.

(** X7: Without attachment processing the export always returns: one Card
    per source card, in order, with name, description, position, URL and
    members copied and no attachments, even when fetching actions or
    checklists failed; apart from what it prints it changes nothing. *)
Theorem export_without_images (crds : list trello.Card) (opts : TrelloOptions)
    (w : World) :
  ProcessImages opts = false ->
  exists w' cards,
    ProcessCardsForExporting time_Parse crds opts w = (w', Ok cards)
    /\ cards = map (normalized time_Parse) crds
    /\ map Card.Name cards = map trello.Name crds
    /\ map Card.Desc cards = map trello.Desc crds
    /\ map Card.Position cards = map trello.Pos crds
    /\ map Card.ShortURL cards = map trello.ShortUrl crds
    /\ map Card.IDOwners cards = map trello.IdMembers crds
    /\ Forall (fun c => Card.Attachments c = ∅) cards
    /\ console_only w w'.
Proof.
  intros Hi. unfold ProcessCardsForExporting.
  destruct (export_loop_without_images opts crds [] w Hi) as (w' & Hrun & F).
  exists w', (map (normalized time_Parse) crds).
  split; [exact Hrun|]. split; [reflexivity|].
  assert (Hf : forall tc,
             Card.Name (normalized time_Parse tc) = trello.Name tc
             /\ Card.Desc (normalized time_Parse tc) = trello.Desc tc
             /\ Card.Position (normalized time_Parse tc) = trello.Pos tc
             /\ Card.ShortURL (normalized time_Parse tc) = trello.ShortUrl tc
             /\ Card.IDOwners (normalized time_Parse tc) = trello.IdMembers tc
             /\ Card.Attachments (normalized time_Parse tc) = ∅).
  { intros tc. unfold normalized.
    destruct (fold_left _ _ _) as [[? ?] ?]. cbn. auto 10. }
  rewrite !map_map.
  repeat split; try (apply map_ext; intros tc; apply Hf); [|exact F].
  apply List.Forall_forall. intros c Hc.
  apply in_map_iff in Hc as (tc & <- & _). apply Hf.
Qed.

Lemma export_loop_with_images opts crds acc w :
  ProcessImages opts = true ->
  Exists has_attachment crds ->
  exists c,
    snd (fold_range crds acc
           (fun cards card =>
              let labels := getLabelsFlattenFromCard card in
              let dueDate := parseDateOrReturnNil time_Parse (trello.Due card) in
              let* '(idCreator, createdAt, comments) :=
                getCommentsAndCardCreator time_Parse card in
              let* tasks := getCheckListsForCard card in
              let* attachments :=
                if ProcessImages opts
                then downloadCardAttachmentsUploadToDropbox card
                else ret ∅ in
              ret (cards ++ [Card.mk (trello.Name card) (trello.Desc card)
                               labels dueDate idCreator (trello.IdMembers card)
                               createdAt comments tasks (trello.Pos card)
                               (trello.ShortUrl card) attachments])) w)
    = Crash c.
Proof.
  intros Hi.
  match goal with
  | |- context [fold_range _ _ ?b] => set (body := b)
  end.
  revert acc w. induction crds as [|card r IH]; intros acc w Hex.
  - inversion Hex.
  - cbn [fold_range]. rewrite bind_run.
    destruct (body acc card w) as [w1 [s'|c]] eqn:E; [|now exists c].
    apply Exists_cons in Hex as [(a & rest & Ha)|Hex]; [|now apply IH].
    exfalso. revert E. unfold body. cbv zeta. rewrite bind_run.
    destruct (getCommentsAndCardCreator_run card w) as (w2 & -> & _).
    destruct (fold_left (scanAction time_Parse) (fst (trello.Actions card))
                ("", None, [])) as [[creator createdAt] comments].
    rewrite bind_run.
    destruct (getCheckListsForCard_run card w2) as (w3 & -> & _).
    rewrite Hi, bind_run.
    destruct (relocator_never_returns card a rest w3 Ha) as (c & Hc).
    destruct (downloadCardAttachmentsUploadToDropbox card w3) as [w4 res].
    cbn [snd] in Hc. subst res. discriminate.
Qed.

(** X8: With attachment processing the export never completes once a card
    has an attachment: the run stops, by a panic or a fatal exit, and no
    Card list is returned. *)
Theorem export_with_images_stops (crds : list trello.Card)
    (opts : TrelloOptions) (w : World) :
  ProcessImages opts = true ->
  Exists has_attachment crds ->
  exists c, snd (ProcessCardsForExporting time_Parse crds opts w) = Crash c.
Proof.
  intros Hi Hex. unfold ProcessCardsForExporting.
  now apply export_loop_with_images.
Qed.

End ExportFacts.

(** *** The relocator at its first attachment *)

Lemma call_list_run req w :
  exists w' r,
    call req "/sharing/list_shared_links" w = (w', Ok r)
    /\ shared_links w' = shared_links w
    /\ dropbox_files w' = dropbox_files w.
Proof.
  unfold call. rewrite bind_run. unfold remote_fails.
  destruct (faults w) as [|[|] fs]; do 2 eexists;
    (split; [reflexivity|]); auto.
Qed.

Lemma getSharedLinks_run path w :
  exists w',
    getSharedLinks path w = (w', Ok (None, None))
    /\ shared_links w' = shared_links w
    /\ dropbox_files w' = dropbox_files w.
Proof.
  unfold getSharedLinks. rewrite bind_run.
  destruct (call_list_run {| Path := path |} w) as (w' & r & -> & H1 & H2).
  exists w'. auto.
Qed.

(** X9: With an attachment, the relocator stops at the first one and never
    shares anything: a failed download is a fatal exit that leaves
    Dropbox untouched, and otherwise the run panics on the nil pointer
    after at most the one upload; the shared links are never changed. *)
Theorem relocator_stops_at_first_attachment (card : trello.Card)
    (a : trello.Attachment) (rest : list trello.Attachment) (w : World) :
  trello.Attachments card = (a :: rest, None) ->
  exists w',
    downloadCardAttachmentsUploadToDropbox card w
    = (w', Crash match faults w with
                 | true :: _ => FatalExit
                 | _ => NilDereference
                 end)
    /\ shared_links w' = shared_links w
    /\ match faults w with
       | true :: _ => dropbox_files w' = dropbox_files w
       | _ =>
           forall p, p <> attachmentPath card 0 (sanitize (trello.AttName a)) ->
                     dropbox_files w' !! p = dropbox_files w !! p
       end.
Proof.
  intros E. unfold downloadCardAttachmentsUploadToDropbox. rewrite E.
  rewrite bind_run. cbn [ret fold_range_indexed]. rewrite bind_run.
  rewrite bind_run. unfold downloadTrelloAttachment at 1.
  rewrite bind_run. unfold http_Get at 1. rewrite bind_run.
  unfold remote_fails at 1.
  destruct (faults w) as [|[|] fs] eqn:Ef.
  - cbn [ret deref]. rewrite bind_run. cbn [time_Now]. rewrite bind_run.
    unfold Files_Upload at 1. rewrite bind_run. unfold remote_fails at 1.
    cbn [faults set_ticks]. rewrite Ef. cbn [ret]. rewrite bind_run.
    cbn [deref ret]. rewrite bind_run.
    match goal with
    | |- context [getSharedLinks ?p ?w1] =>
        destruct (getSharedLinks_run p w1) as (w2 & -> & H1 & H2)
    end.
    exists w2. split; [reflexivity|]. split; [exact H1|].
    intros p Hp. rewrite H2. cbn. now rewrite lookup_insert_ne.
  - eexists. split; [reflexivity|]. split; reflexivity.
  - cbn [ret deref]. rewrite bind_run. cbn [time_Now]. rewrite bind_run.
    unfold Files_Upload at 1. rewrite bind_run. unfold remote_fails at 1.
    cbn [faults set_ticks set_faults].
    destruct fs as [|[|] fs'].
    + cbn [ret]. rewrite bind_run. cbn [deref ret]. rewrite bind_run.
      match goal with
      | |- context [getSharedLinks ?p ?w1] =>
          destruct (getSharedLinks_run p w1) as (w2 & -> & H1 & H2)
      end.
      exists w2. split; [reflexivity|]. split; [exact H1|].
      intros p Hp. rewrite H2. cbn. now rewrite lookup_insert_ne.
    + eexists. split; [reflexivity|]. split; [reflexivity|]. reflexivity.
    + cbn [ret]. rewrite bind_run. cbn [deref ret]. rewrite bind_run.
      match goal with
      | |- context [getSharedLinks ?p ?w1] =>
          destruct (getSharedLinks_run p w1) as (w2 & -> & H1 & H2)
      end.
      exists w2. split; [reflexivity|]. split; [exact H1|].
      intros p Hp. rewrite H2. cbn. now rewrite lookup_insert_ne.
Qed.

Lemma relocator_stops_at_first_attachment_witness :
  exists w',
    downloadCardAttachmentsUploadToDropbox
      (trello_card [] one_attachment) shared_world
    = (w', Crash NilDereference)
    /\ shared_links w' = shared_links shared_world
    /\ forall p, p <> attachmentPath (trello_card [] one_attachment) 0
                        (sanitize "My File #1.png") ->
                 dropbox_files w' !! p = dropbox_files shared_world !! p.
Proof.
  apply (relocator_stops_at_first_attachment (trello_card [] one_attachment)
           {| trello.AttName := "My File #1.png";
              trello.Url := "https://trello.com/a/1" |} [] shared_world).
  reflexivity.
Defined.

(** *** The import under failures *)

Lemma DeleteStory_any id w :
  exists w' err,
    DeleteStory id w = (w', Ok err)
    /\ next_story w' = next_story w
    /\ (stories w' = stories w
        \/ stories w'
           = List.filter (fun s => negb (Z.eqb (ch.Story.ID s) id)) (stories w)).
Proof.
  unfold DeleteStory. rewrite bind_run. unfold remote_fails.
  destruct (faults w) as [|[|] fs]; cbn [faults set_faults stories];
    try (do 2 eexists; split; [reflexivity|]; auto; fail);
    destruct (existsb _ (stories w)); do 2 eexists;
    (split; [reflexivity|]); auto.
Qed.

Lemma deleteMatchingStories_any snap opts c w :
  exists w',
    deleteMatchingStories snap opts c w = (w', Ok tt)
    /\ next_story w' = next_story w
    /\ (forall t, In t (stories w') -> In t (stories w))
    /\ (forall t, In t (stories w) -> deleted_by snap c t = false ->
                  In t (stories w')).
Proof.
  unfold deleteMatchingStories.
  match goal with
  | |- context [for_each _ ?b] => set (body := b)
  end.
  revert w. induction snap as [|s r IH]; intros w.
  - exists w. split; [reflexivity|]. auto.
  - cbn [for_each]. rewrite bind_run. unfold body at 1.
    destruct (String.eqb (ch.Story.Name s) (Card.Name c)) eqn:En.
    + rewrite bind_run.
      destruct (DeleteStory_any (ch.Story.ID s) w) as (w1 & err & -> & Hn1 & Hs1).
      assert (Hstep : exists w2,
                 match err with
                 | Some _ =>
                     print (outputFormat (Card.ShortURL c) "Deleted Matching"
                              ("Story ID: " +:+ fmt_d (ch.Story.ID s)))
                 | None => ret tt
                 end w1 = (w2, Ok tt)
                 /\ next_story w2 = next_story w1
                 /\ stories w2 = stories w1)
        by (destruct err; eexists; (split; [reflexivity|]); cbn; auto).
      destruct Hstep as (w2 & -> & Hn2 & Hs2).
      destruct (IH w2) as (w' & -> & Hn' & Hsub & Hkeep).
      exists w'. split; [reflexivity|]. split; [congruence|]. split.
      * intros t Ht. apply Hsub in Ht. rewrite Hs2 in Ht.
        destruct Hs1 as [Hs1|Hs1]; rewrite Hs1 in Ht; [exact Ht|].
        now apply filter_In in Ht.
      * intros t Ht Hd. unfold deleted_by in Hd. cbn [existsb] in Hd.
        apply orb_false_iff in Hd as [Hd1 Hd2]. rewrite En in Hd1.
        cbn [andb] in Hd1. apply Hkeep; [|exact Hd2].
        rewrite Hs2. destruct Hs1 as [Hs1|Hs1]; rewrite Hs1; [exact Ht|].
        apply filter_In. split; [exact Ht|].
        now rewrite Z.eqb_sym, Hd1.
    + cbn [ret]. destruct (IH w) as (w' & -> & Hn' & Hsub & Hkeep).
      exists w'. split; [reflexivity|]. split; [exact Hn'|].
      split; [exact Hsub|]. intros t Ht Hd. apply Hkeep; [exact Ht|].
      unfold deleted_by in Hd. cbn [existsb] in Hd.
      now apply orb_false_iff in Hd.
Qed.

(** X10: Whatever fails, the duplicate check returns, adds no story, and
    removes a story only if the listing shows a story with the same
    identifier under the card's name: every other story stays. *)
Theorem deleteMatchingStories_spares_others
    (snap : list ch.Story.t) (opts : ClubhouseOptions) (c : Card.t)
    (w : World) :
  exists w',
    deleteMatchingStories snap opts c w = (w', Ok tt)
    /\ next_story w' = next_story w
    /\ (forall t, In t (stories w') -> In t (stories w))
    /\ (forall t, In t (stories w) ->
                  (forall s, In s snap -> ch.Story.ID s = ch.Story.ID t ->
                             ch.Story.Name s <> Card.Name c) ->
                  In t (stories w')).
Proof.
  destruct (deleteMatchingStories_any snap opts c w)
    as (w' & Hrun & Hn & Hsub & Hkeep).
  exists w'. split; [exact Hrun|]. split; [exact Hn|]. split; [exact Hsub|].
  intros t Ht Hno. apply Hkeep; [exact Ht|].
  unfold deleted_by. destruct (existsb _ snap) eqn:E; [|reflexivity].
  apply existsb_exists in E as (s & Hs & Hb).
  apply andb_true_iff in Hb as [Hname Hid].
  apply String.eqb_eq in Hname. apply Z.eqb_eq in Hid.
  now destruct (Hno s Hs Hid).
Qed.

Lemma deleteMatchingStories_spares_others_witness :
  exists w',
    deleteMatchingStories (stories used_world) sample_opts card_login used_world
    = (w', Ok tt)
    /\ In (ch.Story.mk 2 "Other" 7) (stories w').
Proof.
  destruct (deleteMatchingStories_spares_others (stories used_world)
              sample_opts card_login used_world)
    as (w' & Hrun & _ & _ & Hkeep).
  exists w'. split; [exact Hrun|]. apply Hkeep.
  - right. now left.
  - intros s [<-|[<-|[]]] Hid; cbn in *; [discriminate|discriminate].
Defined.

Lemma CreateStory_any cs w :
  exists w' st err,
    CreateStory cs w = (w', Ok (st, err))
    /\ next_story w <= next_story w' <= next_story w + 1.
Proof.
  unfold CreateStory. rewrite bind_run. unfold remote_fails.
  destruct (faults w) as [|[|] fs]; do 3 eexists;
    (split; [reflexivity|]); cbn; lia.
Qed.

Lemma ListStories_any pid w :
  exists w' snap err,
    ListStories pid w = (w', Ok (snap, err))
    /\ next_story w' = next_story w /\ stories w' = stories w.
Proof.
  unfold ListStories. rewrite bind_run. unfold remote_fails.
  destruct (faults w) as [|[|] fs]; do 3 eexists;
    (split; [reflexivity|]); auto.
Qed.

Lemma for_each_app {A} (l1 l2 : list A) (body : A -> M unit) (w : World) :
  for_each (l1 ++ l2) body w
  = match for_each l1 body w with
    | (w1, Ok _) => for_each l2 body w1
    | (w1, Crash c) => (w1, Crash c)
    end.
Proof.
  revert w. induction l1 as [|x r IH]; intros w; [reflexivity|].
  cbn [app for_each]. rewrite !bind_run.
  destruct (body x w) as [w1 [[]|c]]; [apply IH|reflexivity].
Qed.

(** On a sound store, what the listing of the project makes the
    duplicate checks remove are the stories that collide with a card. *)
Lemma deleted_is_collides w pid cards t :
  store_ok w -> In t (stories w) ->
  existsb
    (fun c =>
       deleted_by
         (List.filter (fun s => Z.eqb (ch.Story.ProjectID s) pid) (stories w))
         c t)
    cards
  = collides pid cards t.
Proof.
  intros [Hnd _] Ht. unfold collides.
  apply eq_true_iff_eq. rewrite andb_true_iff, !existsb_exists. split.
  - intros (c & Hc & Hdel). unfold deleted_by in Hdel.
    apply existsb_exists in Hdel as (s & Hs & Hb).
    apply andb_true_iff in Hb as [Hname Hid].
    apply Z.eqb_eq in Hid. apply filter_In in Hs as [Hs Hp].
    assert (s = t) as -> by (eapply same_ID_same_story; eauto).
    split; [exact Hp|]. exists c. auto.
  - intros (Hp & c & Hc & Hname). exists c. split; [exact Hc|].
    unfold deleted_by. apply existsb_exists. exists t. split.
    + apply filter_In. auto.
    + now rewrite Hname, Z.eqb_refl.
Qed.

Section ImportFailures.

Variable UserMap : Type.
Variable GetCreator : UserMap -> string -> string.

Local Abbreviation Import := (ImportCardsIntoClubhouse UserMap GetCreator).

Lemma import_loop_any snap opts um cards w :
  Forall dated cards ->
  exists w',
    for_each cards
      (fun c =>
         exec deleteMatchingStories snap opts c in
         let* cs := buildClubhouseStory UserMap GetCreator c opts um in
         let* '(st, err) := CreateStory cs in
         match err with
         | Some e => print (outputFormat (Card.ShortURL c) "Failed" e)
         | None =>
             print (outputFormat (Card.ShortURL c) "Success"
                      ("Story ID: " +:+ fmt_d (ch.Story.ID st)))
         end) w
    = (w', Ok tt)
    /\ next_story w <= next_story w' <= next_story w + Z.of_nat (length cards).
Proof.
  match goal with
  | |- context [for_each _ ?b] => set (body := b)
  end.
  revert w. induction cards as [|c r IH]; intros w Hd.
  - exists w. split; [reflexivity|]. cbn. lia.
  - inversion Hd as [|? ? Hc Hr]; subst.
    cbn [for_each]. rewrite bind_run. unfold body at 1. rewrite bind_run.
    destruct (deleteMatchingStories_any snap opts c w) as (w1 & -> & Hn1 & _).
    rewrite bind_run.
    pose proof (buildClubhouseStory_run UserMap GetCreator c opts um w1) as Hb.
    destruct (comments_of_dated UserMap GetCreator um c Hc) as (l & El).
    rewrite El in Hb. destruct Hb as (w2 & ids & -> & _ & Hn2 & _).
    rewrite bind_run.
    match goal with
    | |- context [CreateStory ?cs w2] =>
        destruct (CreateStory_any cs w2) as (w3 & st & err & -> & Hn3)
    end.
    assert (Hstep : exists w4,
               match err with
               | Some e => print (outputFormat (Card.ShortURL c) "Failed" e)
               | None =>
                   print (outputFormat (Card.ShortURL c) "Success"
                            ("Story ID: " +:+ fmt_d (ch.Story.ID st)))
               end w3 = (w4, Ok tt)
               /\ next_story w4 = next_story w3)
      by (destruct err; eexists; split; reflexivity).
    destruct Hstep as (w4 & -> & Hn4).
    destruct (IH w4 Hr) as (w' & -> & Hn').
    exists w'. split; [reflexivity|]. cbn [length]. lia.
Qed.

(** X11: A batch whose comments all carry a date is always worked through to
    the end, whichever remote calls fail: the listing, a deletion, a
    linked file or a story creation failing never aborts the run, and at
    most one story per card is created. *)
Theorem import_never_aborts (cards : list Card.t) (opts : ClubhouseOptions)
    (um : UserMap) (w : World) :
  Forall dated cards ->
  exists w',
    Import cards opts um w = (w', Ok tt)
    /\ next_story w <= next_story w' <= next_story w + Z.of_nat (length cards).
Proof.
  intros Hd. unfold ImportCardsIntoClubhouse.
  rewrite bind_run. cbn [print]. rewrite bind_run. cbn [print].
  rewrite bind_run.
  match goal with
  | |- context [ListStories ?pid ?w0] =>
      destruct (ListStories_any pid w0) as (w1 & snap & err & -> & Hn1 & _)
  end.
  destruct (import_loop_any snap opts um cards w1 Hd) as (w' & Hrun & Hn').
  exists w'. split; [exact Hrun|]. cbn in Hn1. lia.
Qed.

(** X12: When the listing of the project fails, the error is dropped: no
    story is deleted and, the later calls succeeding, every card still
    gets its story, next to any story already carrying its name. *)
Theorem import_after_failed_listing (cards : list Card.t)
    (opts : ClubhouseOptions) (um : UserMap) (w : World) :
  faults w = [true] -> Forall dated cards ->
  exists w',
    Import cards opts um w = (w', Ok tt)
    /\ stories w'
       = stories w ++ created (next_story w) (Project_ID opts) cards.
Proof.
  intros Hf Hd. unfold ImportCardsIntoClubhouse.
  rewrite bind_run. cbn [print]. rewrite bind_run. cbn [print].
  rewrite bind_run. unfold ListStories at 1. rewrite bind_run.
  unfold remote_fails at 1. cbn [faults set_console]. rewrite Hf. cbn [ret].
  match goal with
  | |- context [for_each cards _ ?w0] =>
      destruct (import_loop UserMap GetCreator [] opts um cards w0)
        as (w' & Hrun & _ & _ & Hs); [reflexivity|exact Hd|constructor|]
  end.
  exists w'. split; [exact Hrun|]. rewrite Hs. cbn [stories set_faults
    set_console next_story]. f_equal.
  apply filter_all. intros t _. apply negb_true_iff.
  destruct (existsb _ cards) eqn:E; [|reflexivity].
  apply existsb_exists in E as (c & _ & E). discriminate.
Qed.

(** X13: A card with a comment that has no date stops the run with a panic,
    after its duplicates were deleted and before its story is created:
    the stories colliding with it or with the cards before it are gone,
    only the cards before it have their story, the cards after it are
    never looked at. *)
Theorem import_stops_at_undated_card
    (pre : list Card.t) (c : Card.t) (rest : list Card.t)
    (opts : ClubhouseOptions) (um : UserMap) (w : World) :
  store_ok w -> faults w = [] -> Forall dated pre ->
  Exists (fun cm => Comment.CreatedAt cm = None) (Card.Comments c) ->
  exists w',
    Import (pre ++ c :: rest) opts um w = (w', Crash NilDereference)
    /\ stories w'
       = List.filter
           (fun t => negb (collides (Project_ID opts) (pre ++ [c]) t))
           (stories w)
         ++ created (next_story w) (Project_ID opts) pre.
Proof.
  intros Hok Hq Hd Hun. pose proof Hok as [Hnd Hlt].
  unfold ImportCardsIntoClubhouse.
  rewrite bind_run. cbn [print]. rewrite bind_run. cbn [print].
  match goal with
  | |- context [bind (ListStories _) _ ?w0] => set (wp := w0)
  end.
  assert (Hqp : faults wp = []) by exact Hq.
  rewrite bind_run. unfold ListStories at 1.
  rewrite bind_run, (remote_fails_quiet wp Hqp).
  change (stories wp) with (stories w).
  set (snap := List.filter
                 (fun s => Z.eqb (ch.Story.ProjectID s) (Project_ID opts))
                 (stories w)).
  assert (Hsnap : Forall (fun s => ch.Story.ID s < next_story wp) snap).
  { apply List.Forall_forall. intros s Hs. apply filter_In in Hs as [Hs _].
    rewrite List.Forall_forall in Hlt. now apply Hlt. }
  rewrite for_each_app.
  destruct (import_loop UserMap GetCreator snap opts um pre wp Hqp Hd Hsnap)
    as (w1 & -> & Hq1 & Hn1 & Hs1).
  cbn [for_each]. rewrite bind_run, bind_run.
  destruct (deleteMatchingStories_quiet snap opts c w1 Hq1)
    as (w2 & -> & Hq2 & Hn2 & Hs2).
  rewrite bind_run.
  pose proof (buildClubhouseStory_run UserMap GetCreator c opts um w2) as Hb.
  rewrite (proj2 (comments_of_none UserMap GetCreator um _) Hun) in Hb.
  rewrite Hb. exists w2. split; [reflexivity|].
  rewrite Hs2, Hs1, List.filter_app, filter_filter.
  change (stories wp) with (stories w).
  change (next_story wp) with (next_story w). f_equal.
  - apply filter_ext_in. intros t Ht.
    rewrite <- negb_orb. f_equal.
    rewrite <- (deleted_is_collides w (Project_ID opts) (pre ++ [c]) t Hok Ht).
    fold snap. rewrite existsb_app. cbn [existsb]. now rewrite orb_false_r.
  - apply filter_all. intros t Ht. apply negb_true_iff.
    apply not_deleted_when_fresh.
    apply In_created in Ht as [Ht _].
    eapply List.Forall_impl; [|exact Hsnap].
    cbn. change (next_story wp) with (next_story w). intros; lia.
Qed.

End ImportFailures.

(** *** More on the request *)

Lemma buildLabels_map (card : Card.t) :
  buildLabels card = map ch.CreateLabel.mk (Card.Labels card).
Proof.
  unfold buildLabels.
  enough (H : forall l acc,
             fold_left (fun labels x => labels ++ [ch.CreateLabel.mk x]) l acc
             = acc ++ map ch.CreateLabel.mk l) by apply (H _ []).
  induction l as [|x r IH]; intros acc; cbn.
  - now rewrite app_nil_r.
  - now rewrite IH, <- app_assoc.
Qed.

Lemma buildTasks_map (card : Card.t) :
  buildTasks card
  = map (fun t => ch.CreateTask.mk (Task.Completed t) (Task.Description t))
      (Card.Tasks card).
Proof.
  unfold buildTasks.
  enough (H : forall l acc,
             fold_left
               (fun tasks t =>
                  tasks ++ [ch.CreateTask.mk (Task.Completed t)
                              (Task.Description t)]) l acc
             = acc ++ map (fun t => ch.CreateTask.mk (Task.Completed t)
                                      (Task.Description t)) l)
    by apply (H _ []).
  induction l as [|x r IH]; intros acc; cbn.
  - now rewrite app_nil_r.
  - now rewrite IH, <- app_assoc.
Qed.

Lemma CreateLinkedFiles_cases lf w :
  (exists w' e,
      CreateLinkedFiles lf w = (w', Ok (zeroLinkedFile, Some e))
      /\ linked_files w' = linked_files w /\ next_file w' = next_file w
      /\ faults w <> [])
  \/ (exists w',
         CreateLinkedFiles lf w
         = (w', Ok (ch.LinkedFile.mk (next_file w) (ch.CreateLinkedFile.Name lf)
                      (ch.CreateLinkedFile.URL lf), None))
         /\ linked_files w'
            = linked_files w
              ++ [ch.LinkedFile.mk (next_file w) (ch.CreateLinkedFile.Name lf)
                    (ch.CreateLinkedFile.URL lf)]
         /\ next_file w' = next_file w + 1
         /\ (faults w = [] -> faults w' = [])).
Proof.
  unfold CreateLinkedFiles. rewrite bind_run. unfold remote_fails.
  destruct (faults w) as [|[|] fs] eqn:Ef.
  - right. eexists. split; [reflexivity|]. cbn. auto.
  - left. do 2 eexists. split; [reflexivity|]. cbn.
    repeat split; auto; discriminate.
  - right. eexists. split; [reflexivity|]. cbn.
    repeat split; auto; discriminate.
Qed.

Lemma fresh_ids_cons n k : fresh_ids n (S k) = n :: fresh_ids (n + 1) k.
Proof.
  unfold fresh_ids. cbn [seq map]. f_equal; [lia|].
  rewrite <- seq_shift, map_map. apply map_ext. intros i. lia.
Qed.

Lemma linkfiles_loop_files card opts kvs acc w :
  exists w' new,
    fold_range kvs acc
      (fun ids (kv : string * string) =>
         let lf := ch.CreateLinkedFile.mk (fst kv) "dropbox" (snd kv)
                     (ImportMember_ID opts) in
         let* '(r, err) := CreateLinkedFiles lf in
         match err with
         | Some e =>
             exec print ("Fail to create linked file card name: "
                         +:+ Card.Name card +:+ " Dropbox link: " +:+ snd kv
                         +:+ " Err: " +:+ e +:+ newline) in
             ret ids
         | None => ret (ids ++ [ch.LinkedFile.ID r])
         end) w
    = (w', Ok (acc ++ map ch.LinkedFile.ID new))
    /\ linked_files w' = linked_files w ++ new
    /\ map ch.LinkedFile.ID new = fresh_ids (next_file w) (length new)
    /\ sublist (map file_entry new) kvs
    /\ (faults w = [] -> map file_entry new = kvs).
Proof.
  match goal with
  | |- context [fold_range _ _ ?b] => set (body := b)
  end.
  revert acc w. induction kvs as [|kv r IH]; intros acc w.
  - exists w, []. cbn. rewrite !app_nil_r.
    repeat split; auto; constructor.
  - cbn [fold_range]. rewrite bind_run. unfold body at 1. cbv zeta.
    rewrite bind_run.
    destruct (CreateLinkedFiles_cases
                (ch.CreateLinkedFile.mk (fst kv) "dropbox" (snd kv)
                   (ImportMember_ID opts)) w)
      as [(w1 & e & -> & Hl1 & Hn1 & Hf1)|(w1 & -> & Hl1 & Hn1 & Hf1)].
    + rewrite bind_run. cbn [print ret].
      match goal with
      | |- context [fold_range r acc body ?w2] =>
          destruct (IH acc w2) as (w' & new & -> & Hl & Hi & Hsub & _)
      end.
      exists w', new. split; [reflexivity|].
      cbn [linked_files next_file set_console] in Hl, Hi.
      rewrite Hl1 in Hl. rewrite Hn1 in Hi.
      repeat split; auto; [now constructor|]. intros Hq. now destruct Hf1.
    + cbn [ret ch.LinkedFile.ID ch.CreateLinkedFile.Name ch.CreateLinkedFile.URL].
      match goal with
      | |- context [fold_range r ?acc' body w1] =>
          destruct (IH acc' w1) as (w' & new & -> & Hl & Hi & Hsub & Hall)
      end.
      exists w', (ch.LinkedFile.mk (next_file w) (fst kv) (snd kv) :: new).
      split; [now rewrite <- app_assoc|].
      cbn [ch.CreateLinkedFile.Name ch.CreateLinkedFile.URL] in Hl1.
      split; [now rewrite Hl, Hl1, <- app_assoc|].
      split; [cbn [map length ch.LinkedFile.ID];
              now rewrite fresh_ids_cons, Hi, Hn1|].
      split.
      * cbn [map]. unfold file_entry at 1. cbn. destruct kv. now constructor.
      * intros Hq. cbn [map]. unfold file_entry at 1. cbn.
        rewrite (Hall (Hf1 Hq)). now destruct kv.
Qed.


(** X17: When no call fails, every attachment of the card is registered
    exactly once, and the identifiers returned are the next free ones in
    the order of registration. *)
Theorem buildLinkFiles_all_registered (card : Card.t)
    (opts : ClubhouseOptions) (w : World) :
  faults w = [] ->
  exists w' new,
    buildLinkFiles card opts w
    = (w', Ok (fresh_ids (next_file w) (size (Card.Attachments card))))
    /\ linked_files w' = linked_files w ++ new
    /\ map file_entry new = map_to_list (Card.Attachments card)
    /\ map ch.LinkedFile.ID new
       = fresh_ids (next_file w) (size (Card.Attachments card)).
Proof.
  intros Hq.
  destruct (linkfiles_loop_files card opts (map_to_list (Card.Attachments card))
              [] w) as (w' & new & Hrun & Hl & Hi & _ & Hall).
  specialize (Hall Hq).
  assert (Hlen : length new = size (Card.Attachments card)).
  { rewrite <- (length_map file_entry), Hall. apply length_map_to_list. }
  exists w', new. split.
  - etransitivity; [exact Hrun|]. cbn [app]. now rewrite Hi, Hlen.
  - rewrite <- Hlen. auto.
Qed.

Lemma buildLinkFiles_all_registered_witness :
  exists w' new,
    buildLinkFiles card_files sample_opts empty_world
    = (w', Ok (fresh_ids (next_file empty_world)
                 (size (Card.Attachments card_files))))
    /\ linked_files w' = linked_files empty_world ++ new
    /\ map file_entry new = map_to_list (Card.Attachments card_files)
    /\ map ch.LinkedFile.ID new
       = fresh_ids (next_file empty_world) (size (Card.Attachments card_files)).
Proof.
  apply (buildLinkFiles_all_registered card_files sample_opts empty_world).
  reflexivity.
Defined.

Section MoreRequestFacts.

Variable UserMap : Type.
Variable GetCreator : UserMap -> string -> string.

(** X18: A request that is built takes project, workflow state and story
    type from the options, has no followers and no files, copies name,
    description, deadline and creation date of the card, and maps its
    labels and tasks one for one, in order; building it touches no
    story. *)
Theorem request_copies_card (card : Card.t) (opts : ClubhouseOptions)
    (um : UserMap) (w w' : World) (st : ch.CreateStory.t) :
  buildClubhouseStory UserMap GetCreator card opts um w = (w', Ok st) ->
  ch.CreateStory.ProjectID st = Project_ID opts
  /\ ch.CreateStory.WorkflowStateID st = State_ID opts
  /\ ch.CreateStory.StoryType st = StoryType opts
  /\ ch.CreateStory.FollowerIds st = []
  /\ ch.CreateStory.FileIds st = []
  /\ ch.CreateStory.Name st = Card.Name card
  /\ ch.CreateStory.Description st = Card.Desc card
  /\ ch.CreateStory.Deadline st = Card.DueDate card
  /\ ch.CreateStory.CreatedAt st = Card.CreatedAt card
  /\ ch.CreateStory.Labels st = map ch.CreateLabel.mk (Card.Labels card)
  /\ ch.CreateStory.Tasks st
     = map (fun t => ch.CreateTask.mk (Task.Completed t) (Task.Description t))
         (Card.Tasks card)
  /\ stories w' = stories w /\ next_story w' = next_story w.
Proof.
  intros H.
  pose proof (buildClubhouseStory_run UserMap GetCreator card opts um w) as Hb.
  destruct (mapped_comments GetCreator um (Card.Comments card)) as [l|].
  - destruct Hb as (w'' & ids & Hrun & Hs & Hn & _).
    rewrite Hrun in H. injection H as <- <-. cbn.
    rewrite buildLabels_map, buildTasks_map. repeat split; auto.
  - rewrite Hb in H. discriminate.
Qed.

End MoreRequestFacts.

Lemma request_copies_card_witness :
  exists w' st,
    buildClubhouseStory (gmap string string) tableGetCreator card_files
      sample_opts sample_users empty_world = (w', Ok st)
    /\ ch.CreateStory.Name st = "Release notes"
    /\ ch.CreateStory.Labels st = [ch.CreateLabel.mk "doc"; ch.CreateLabel.mk "doc"]
    /\ ch.CreateStory.Tasks st = [ch.CreateTask.mk true "Checklist - Tests"].
Proof.
  destruct (buildClubhouseStory (gmap string string) tableGetCreator card_files
              sample_opts sample_users empty_world) as [w' [st|c]] eqn:E;
    [|vm_compute in E; discriminate].
  exists w', st. split; [reflexivity|].
  pose proof (request_copies_card (gmap string string) tableGetCreator
                card_files sample_opts sample_users empty_world w' st E) as H.
  destruct H as (_ & _ & _ & _ & _ & Hn & _ & _ & _ & Hl & Ht & _).
  auto.
Defined.

Lemma export_without_images_witness :
  exists w' cards,
    ProcessCardsForExporting strictParse
      [trello_card [undated_comment] one_attachment]
      {| ProcessImages := false |} empty_world = (w', Ok cards)
    /\ map Card.Name cards = ["Fix login bug"]
    /\ console_only empty_world w'.
Proof.
  destruct (export_without_images strictParse
              [trello_card [undated_comment] one_attachment]
              {| ProcessImages := false |} empty_world eq_refl)
    as (w' & cards & Hrun & _ & Hn & _ & _ & _ & _ & _ & Hc).
  exists w', cards. auto.
Defined.

Lemma export_with_images_stops_witness :
  exists c,
    snd (ProcessCardsForExporting strictParse
           [trello_card [] []; trello_card [] one_attachment]
           {| ProcessImages := true |} empty_world) = Crash c.
Proof.
  apply (export_with_images_stops strictParse
           [trello_card [] []; trello_card [] one_attachment]
           {| ProcessImages := true |} empty_world eq_refl).
  right. left. do 2 eexists. reflexivity.
Defined.

Lemma import_never_aborts_witness :
  exists w',
    ImportCardsIntoClubhouse (gmap string string) tableGetCreator
      [card_login; card_files] sample_opts sample_users failing_world
    = (w', Ok tt)
    /\ next_story failing_world <= next_story w'
       <= next_story failing_world + Z.of_nat (length [card_login; card_files]).
Proof.
  apply (import_never_aborts (gmap string string) tableGetCreator
           [card_login; card_files] sample_opts sample_users failing_world).
  repeat constructor; discriminate.
Defined.

Lemma import_after_failed_listing_witness :
  exists w',
    ImportCardsIntoClubhouse (gmap string string) tableGetCreator
      [card_login] sample_opts sample_users failing_world = (w', Ok tt)
    /\ stories w'
       = stories failing_world
         ++ created (next_story failing_world) (Project_ID sample_opts)
              [card_login].
Proof.
  apply (import_after_failed_listing (gmap string string) tableGetCreator
           [card_login] sample_opts sample_users failing_world).
  - reflexivity.
  - repeat constructor; discriminate.
Defined.

Lemma import_stops_at_undated_card_witness :
  exists w',
    ImportCardsIntoClubhouse (gmap string string) tableGetCreator
      ([card_docs] ++ card_undated :: [card_files]) sample_opts sample_users
      used_world = (w', Crash NilDereference)
    /\ stories w'
       = List.filter
           (fun t => negb (collides (Project_ID sample_opts)
                             ([card_docs] ++ [card_undated]) t))
           (stories used_world)
         ++ created (next_story used_world) (Project_ID sample_opts) [card_docs].
Proof.
  apply (import_stops_at_undated_card (gmap string string) tableGetCreator
           [card_docs] card_undated [card_files] sample_opts sample_users
           used_world).
  - split.
    + repeat constructor; simpl; intuition discriminate.
    + repeat constructor.
  - reflexivity.
  - repeat constructor.
  - left. reflexivity.
Defined.

(** *** The other revision of the relocator: relocating twice *)

Lemma links_in_app path l1 l2 :
  links_in path (l1 ++ l2) = links_in path l1 ++ links_in path l2.
Proof. apply List.filter_app. Qed.

Lemma covered_app card links ext i atts :
  covered card links i atts -> covered card (links ++ ext) i atts.
Proof.
  revert i. induction atts as [|f r IH]; intros i; [auto|].
  cbn [covered]. intros [H1 H2]. split; [|now apply IH].
  rewrite links_in_app. destruct (links_in _ links); [contradiction|discriminate].
Qed.

Lemma link_map_app card links ext i atts m :
  covered card links i atts ->
  link_map card (links ++ ext) i atts m = link_map card links i atts m.
Proof.
  revert i m. induction atts as [|f r IH]; intros i m; [reflexivity|].
  cbn [covered link_map]. intros [H1 H2]. rewrite links_in_app.
  destruct (links_in _ links) as [|l0 ls]; [contradiction|].
  cbn [app]. now apply IH.
Qed.

Lemma http_Get_quiet url w :
  faults w = [] ->
  http_Get url w = (w, Ok (Some (default "" (web w !! url)), None)).
Proof.
  intros Hq. unfold http_Get. now rewrite bind_run, (remote_fails_quiet w Hq).
Qed.

Lemma Files_Upload_quiet u w :
  faults w = [] ->
  Files_Upload u w
  = (set_dropbox_files (<[up_Path u := up_Reader u]> (dropbox_files w)) w,
     Ok (Some {| PathDisplay := up_Path u |}, None)).
Proof.
  intros Hq. unfold Files_Upload.
  now rewrite bind_run, (remote_fails_quiet w Hq).
Qed.

Lemma ListSharedLinks_quiet path w :
  faults w = [] ->
  LibrarySharing.ListSharedLinks path w
  = (w, Ok (Some {| Links := links_in path (shared_links w) |}, None)).
Proof.
  intros Hq. unfold LibrarySharing.ListSharedLinks.
  now rewrite bind_run, (remote_fails_quiet w Hq).
Qed.

Lemma CreateSharedLink_quiet path w :
  faults w = [] ->
  LibrarySharing.CreateSharedLink path w
  = match links_in path (shared_links w) with
    | l :: _ => (w, Ok (Some l, None))
    | [] =>
        (set_shared_links
           (shared_links w
            ++ [{| URL := "https://db.tt" +:+ path; PathLower := path |}]) w,
         Ok (Some {| URL := "https://db.tt" +:+ path; PathLower := path |},
             None))
    end.
Proof.
  intros Hq. unfold LibrarySharing.CreateSharedLink.
  now rewrite bind_run, (remote_fails_quiet w Hq).
Qed.

Lemma sharing_loop card atts i m w :
  faults w = [] ->
  exists w' ext,
    fold_range_indexed i atts m
      (fun i sharedLinks f =>
         let name := sanitize (trello.AttName f) in
         let path := attachmentPath card i name in
         let* r := downloadTrelloAttachment f in
         let* now := time_Now in
         let n := Strftime now in
         match @None error with
         | Some e =>
             log_Fatal ("Error occurred downloading file from trello... "
                        +:+ e +:+ newline)
         | None =>
             let u := {| up_Path := path; up_Mode := "overwrite";
                         up_AutoRename := false; up_Mute := true;
                         up_ClientModified := n; up_Reader := r |} in
             let* '(o, err) := Files_Upload u in
             match err with
             | Some e =>
                 let* o' := deref o in
                 log_Fatal ("Error occurred uploading file: '" +:+ PathDisplay o'
                            +:+ "' to dropbox continuing. Error: '" +:+ e
                            +:+ "'" +:+ newline)
             | None =>
                 let* o' := deref o in
                 let* '(links, _) :=
                   LibrarySharing.ListSharedLinks (PathDisplay o') in
                 let* ls := deref links in
                 match Links ls with
                 | [] =>
                     let* '(link, err) :=
                       LibrarySharing.CreateSharedLink (PathDisplay o') in
                     match err with
                     | Some e =>
                         exec print ("Error occurred sharing file: '"
                                     +:+ PathDisplay o'
                                     +:+ "' to dropbox continuing. Error: '"
                                     +:+ e +:+ "'" +:+ newline) in
                         ret sharedLinks
                     | None =>
                         let* l := deref link in
                         ret (<[name := URL l]> sharedLinks)
                     end
                 | l0 :: _ => ret (<[name := URL l0]> sharedLinks)
                 end
             end
         end) w
    = (w', Ok (link_map card (shared_links w') i atts m))
    /\ faults w' = []
    /\ shared_links w' = shared_links w ++ ext
    /\ covered card (shared_links w') i atts
    /\ (covered card (shared_links w) i atts -> ext = []).
Proof.
  match goal with
  | |- context [fold_range_indexed _ _ _ ?b] => set (body := b)
  end.
  revert i m w. induction atts as [|f r IH]; intros i m w Hq.
  - exists w, []. cbn. rewrite app_nil_r. auto.
  - cbn [fold_range_indexed]. rewrite bind_run. unfold body at 1. cbv zeta.
    set (name := sanitize (trello.AttName f)).
    set (path := attachmentPath card i name).
    rewrite bind_run. unfold downloadTrelloAttachment at 1.
    rewrite bind_run, (http_Get_quiet _ w Hq). cbn [deref ret].
    rewrite bind_run. cbn [time_Now].
    rewrite bind_run, Files_Upload_quiet by exact Hq.
    cbn [up_Path up_Reader].
    match goal with
    | |- context [set_dropbox_files ?d ?w0] => set (wa := set_dropbox_files d w0)
    end.
    assert (Hqa : faults wa = []) by exact Hq.
    assert (Hla : shared_links wa = shared_links w) by reflexivity.
    rewrite bind_run. cbn [deref ret]. rewrite bind_run. cbn [PathDisplay].
    rewrite (ListSharedLinks_quiet path wa Hqa), Hla.
    rewrite bind_run. cbn [deref ret Links].
    destruct (links_in path (shared_links w)) as [|l0 ls] eqn:El.
    + rewrite bind_run, (CreateSharedLink_quiet path wa Hqa), Hla, El.
      rewrite bind_run. cbn [deref ret URL].
      match goal with
      | |- context [set_shared_links ?l ?w0] => set (wb := set_shared_links l w0)
      end.
      destruct (IH (S i) (<[name := "https://db.tt" +:+ path]> m) wb Hqa)
        as (w' & ext & -> & Hq' & Hl' & Hc' & _).
      exists w', ({| URL := "https://db.tt" +:+ path; PathLower := path |} :: ext).
      assert (Hlinks : shared_links w'
                       = shared_links w
                         ++ {| URL := "https://db.tt" +:+ path;
                               PathLower := path |} :: ext).
      { rewrite Hl'. unfold wb. cbn [shared_links set_shared_links].
        rewrite <- app_assoc. reflexivity. }
      assert (Hhead : links_in path (shared_links w')
                      = {| URL := "https://db.tt" +:+ path; PathLower := path |}
                        :: links_in path ext).
      { rewrite Hlinks, links_in_app, El. cbn [app links_in List.filter PathLower].
        now rewrite String.eqb_refl. }
      split.
      * cbn [link_map]. fold name. fold path. now rewrite Hhead.
      * split; [exact Hq'|]. split; [exact Hlinks|]. split.
        -- cbn [covered]. fold name. fold path. rewrite Hhead.
           split; [discriminate|exact Hc'].
        -- cbn [covered]. fold name. fold path. rewrite El.
           intros [Habs _]. now contradiction Habs.
    + cbn [ret].
      destruct (IH (S i) (<[name := URL l0]> m) wa Hqa)
        as (w' & ext & -> & Hq' & Hl' & Hc' & Hext).
      exists w', ext. rewrite Hla in Hl'.
      assert (Hhead : links_in path (shared_links w')
                      = l0 :: ls ++ links_in path ext)
        by (rewrite Hl', links_in_app, El; reflexivity).
      split.
      * cbn [link_map]. fold name. fold path. now rewrite Hhead.
      * split; [exact Hq'|]. split; [exact Hl'|]. split.
        -- cbn [covered]. fold name. fold path. rewrite Hhead.
           split; [discriminate|exact Hc'].
        -- cbn [covered]. intros [_ Hcov]. apply Hext. now rewrite Hla.
Qed.

Lemma sharing_twice (card : trello.Card)
    (atts : list trello.Attachment) (w : World) :
  trello.Attachments card = (atts, None) -> faults w = [] ->
  exists w1 w2 links,
    LibrarySharing.downloadCardAttachmentsUploadToDropbox card w
    = (w1, Ok links)
    /\ LibrarySharing.downloadCardAttachmentsUploadToDropbox card w1
       = (w2, Ok links)
    /\ shared_links w2 = shared_links w1
    /\ links = link_map card (shared_links w1) 0 atts ∅
    /\ covered card (shared_links w1) 0 atts.
Proof.
  intros E Hq. unfold LibrarySharing.downloadCardAttachmentsUploadToDropbox.
  rewrite E.
  destruct (sharing_loop card atts 0 ∅ w Hq)
    as (w1 & ext1 & Hrun1 & Hq1 & Hl1 & Hc1 & _).
  destruct (sharing_loop card atts 0 ∅ w1 Hq1)
    as (w2 & ext2 & Hrun2 & Hq2 & Hl2 & Hc2 & Hext2).
  specialize (Hext2 Hc1). subst ext2. rewrite app_nil_r in Hl2.
  exists w1, w2, (link_map card (shared_links w1) 0 atts ∅).
  split; [rewrite bind_run; exact Hrun1|].
  split; [rewrite bind_run; rewrite <- Hl2; exact Hrun2|].
  auto.
Qed.

(** X19: The other revision, when no call fails: relocating the same
    attachments a second time gives the same map of URLs and adds no
    shared link; every link it returns is the first link of the
    attachment's path. *)
Theorem library_sharing_relocates_once (card : trello.Card)
    (atts : list trello.Attachment) (w : World) :
  trello.Attachments card = (atts, None) -> faults w = [] ->
  exists w1 w2 links,
    LibrarySharing.downloadCardAttachmentsUploadToDropbox card w
    = (w1, Ok links)
    /\ LibrarySharing.downloadCardAttachmentsUploadToDropbox card w1
       = (w2, Ok links)
    /\ shared_links w2 = shared_links w1
    /\ links = link_map card (shared_links w1) 0 atts ∅
    /\ covered card (shared_links w1) 0 atts.
Proof. apply sharing_twice. Qed.

Lemma library_sharing_relocates_once_witness :
  exists w1 w2 links,
    LibrarySharing.downloadCardAttachmentsUploadToDropbox
      (trello_card [] clashing_attachments) shared_world = (w1, Ok links)
    /\ LibrarySharing.downloadCardAttachmentsUploadToDropbox
         (trello_card [] clashing_attachments) w1 = (w2, Ok links)
    /\ shared_links w2 = shared_links w1
    /\ links = link_map (trello_card [] clashing_attachments) (shared_links w1)
                 0 clashing_attachments ∅
    /\ covered (trello_card [] clashing_attachments) (shared_links w1) 0
         clashing_attachments.
Proof.
  apply (library_sharing_relocates_once (trello_card [] clashing_attachments)
           clashing_attachments shared_world); reflexivity.
Defined.

Lemma link_map_split card links pre rest i m :
  link_map card links i (pre ++ rest) m
  = link_map card links (i + length pre) rest (link_map card links i pre m).
Proof.
  revert i m. induction pre as [|f r IH]; intros i m.
  - cbn. now rewrite Nat.add_0_r.
  - cbn [app link_map length].
    replace (i + S (length r))%nat with (S i + length r)%nat by lia.
    destruct (links_in _ links); apply IH.
Qed.

Lemma link_map_other_names card links atts i m name :
  Forall (fun g => sanitize (trello.AttName g) <> name) atts ->
  link_map card links i atts m !! name = m !! name.
Proof.
  revert i m. induction atts as [|f r IH]; intros i m H; [reflexivity|].
  inversion H as [|? ? Hf Hr]; subst. cbn [link_map].
  destruct (links_in _ links).
  - now apply IH.
  - rewrite IH by exact Hr. now apply lookup_insert_ne.
Qed.

Lemma covered_split card links pre rest i :
  covered card links i (pre ++ rest) ->
  covered card links (i + length pre) rest.
Proof.
  revert i. induction pre as [|f r IH]; intros i.
  - cbn. now rewrite Nat.add_0_r.
  - cbn [app covered length]. intros [_ H].
    replace (i + S (length r))%nat with (S i + length r)%nat by lia.
    now apply IH.
Qed.

(** X20: The other revision, when no call fails: of several attachments
    with the same sanitized name the last one decides the entry of the
    map, which is the first shared link of that attachment's own path. *)
Theorem library_sharing_last_name_wins (card : trello.Card)
    (pre : list trello.Attachment) (f : trello.Attachment)
    (post : list trello.Attachment) (w : World) :
  trello.Attachments card = (pre ++ f :: post, None) -> faults w = [] ->
  Forall (fun g => sanitize (trello.AttName g) <> sanitize (trello.AttName f))
    post ->
  exists w1 links l0 ls,
    LibrarySharing.downloadCardAttachmentsUploadToDropbox card w
    = (w1, Ok links)
    /\ links_in (attachmentPath card (length pre) (sanitize (trello.AttName f)))
         (shared_links w1) = l0 :: ls
    /\ links !! sanitize (trello.AttName f) = Some (URL l0).
Proof.
  intros E Hq Hpost.
  destruct (sharing_twice card (pre ++ f :: post) w E Hq)
    as (w1 & _ & links & Hrun & _ & _ & -> & Hc).
  apply covered_split in Hc. cbn [covered Nat.add] in Hc. destruct Hc as [Hc _].
  destruct (links_in (attachmentPath card (length pre)
                        (sanitize (trello.AttName f))) (shared_links w1))
    as [|l0 ls] eqn:El; [contradiction|].
  exists w1, (link_map card (shared_links w1) 0 (pre ++ f :: post) ∅), l0, ls.
  split; [exact Hrun|]. split; [exact El|].
  rewrite link_map_split. cbn [link_map Nat.add]. rewrite El.
  rewrite link_map_other_names by exact Hpost.
  apply lookup_insert_eq.
Qed.

Lemma library_sharing_last_name_wins_witness :
  exists w1 links l0 ls,
    LibrarySharing.downloadCardAttachmentsUploadToDropbox
      (trello_card [] clashing_attachments) empty_world = (w1, Ok links)
    /\ links_in (attachmentPath (trello_card [] clashing_attachments) 1
                   (sanitize "a#b.png")) (shared_links w1) = l0 :: ls
    /\ links !! sanitize "a#b.png" = Some (URL l0).
Proof.
  apply (library_sharing_last_name_wins (trello_card [] clashing_attachments)
           [{| trello.AttName := "a b.png"; trello.Url := "https://trello.com/a/1" |}]
           {| trello.AttName := "a#b.png"; trello.Url := "https://trello.com/a/2" |}
           [] empty_world).
  - reflexivity.
  - reflexivity.
  - constructor.
Defined.

(** *** The report of a run *)

Lemma DeleteStory_present id w :
  faults w = [] ->
  existsb (fun s => Z.eqb (ch.Story.ID s) id) (stories w) = true ->
  DeleteStory id w
  = (set_stories
       (List.filter (fun s => negb (Z.eqb (ch.Story.ID s) id)) (stories w))
       (next_story w) w, Ok None).
Proof.
  intros Hq Hex. unfold DeleteStory.
  now rewrite bind_run, (remote_fails_quiet w Hq), Hex.
Qed.

Lemma deleteMatchingStories_silent snap opts c w :
  faults w = [] -> List.NoDup (map ch.Story.ID snap) ->
  (forall s, In s snap -> ch.Story.Name s = Card.Name c -> In s (stories w)) ->
  exists w',
    deleteMatchingStories snap opts c w = (w', Ok tt)
    /\ console w' = console w.
Proof.
  unfold deleteMatchingStories.
  match goal with
  | |- context [for_each _ ?b] => set (body := b)
  end.
  revert w. induction snap as [|s r IH]; intros w Hq Hnd Hin.
  - exists w. auto.
  - cbn [map] in Hnd. apply NoDup_cons_iff in Hnd as [Hs Hnd].
    cbn [for_each]. rewrite bind_run. unfold body at 1.
    destruct (String.eqb (ch.Story.Name s) (Card.Name c)) eqn:En.
    + rewrite bind_run, DeleteStory_present; [|exact Hq|].
      * cbn [ret].
        match goal with
        | |- context [for_each r body ?w1] =>
            destruct (IH w1) as (w' & -> & Hc); [exact Hq|exact Hnd| |]
        end.
        -- intros s' Hs' Hn'. cbn [stories set_stories]. apply filter_In.
           split; [apply Hin; [now right|exact Hn']|].
           apply negb_true_iff, Z.eqb_neq. intros E. apply Hs.
           rewrite <- E. now apply in_map.
        -- exists w'. split; [reflexivity|exact Hc].
      * apply existsb_exists. exists s. split; [|apply Z.eqb_refl].
        apply Hin; [now left|]. now apply String.eqb_eq.
    + cbn [ret]. destruct (IH w Hq Hnd) as (w' & -> & Hc).
      * intros s' Hs' Hn'. apply Hin; [now right|exact Hn'].
      * exists w'. auto.
Qed.

Lemma linkfiles_loop_silent card opts kvs acc w :
  faults w = [] ->
  exists w' ids,
    fold_range kvs acc
      (fun ids (kv : string * string) =>
         let lf := ch.CreateLinkedFile.mk (fst kv) "dropbox" (snd kv)
                     (ImportMember_ID opts) in
         let* '(r, err) := CreateLinkedFiles lf in
         match err with
         | Some e =>
             exec print ("Fail to create linked file card name: "
                         +:+ Card.Name card +:+ " Dropbox link: " +:+ snd kv
                         +:+ " Err: " +:+ e +:+ newline) in
             ret ids
         | None => ret (ids ++ [ch.LinkedFile.ID r])
         end) w
    = (w', Ok ids) /\ console w' = console w.
Proof.
  match goal with
  | |- context [fold_range _ _ ?b] => set (body := b)
  end.
  revert acc w. induction kvs as [|kv r IH]; intros acc w Hq.
  - do 2 eexists. split; reflexivity.
  - cbn [fold_range]. rewrite bind_run. unfold body at 1. cbv zeta.
    rewrite bind_run. unfold CreateLinkedFiles at 1.
    rewrite bind_run, (remote_fails_quiet w Hq). cbn [ret].
    match goal with
    | |- context [fold_range r ?acc' body ?w1] =>
        destruct (IH acc' w1 Hq) as (w' & ids & -> & Hc)
    end.
    exists w', ids. split; [reflexivity|exact Hc].
Qed.

Lemma buildLinkFiles_silent card opts w :
  faults w = [] ->
  exists w' ids,
    buildLinkFiles card opts w = (w', Ok ids) /\ console w' = console w.
Proof. apply linkfiles_loop_silent. Qed.

Section ReportFacts.

Variable UserMap : Type.
Variable GetCreator : UserMap -> string -> string.

Lemma buildClubhouseStory_silent card opts um w :
  faults w = [] -> dated card ->
  exists w' cs,
    buildClubhouseStory UserMap GetCreator card opts um w = (w', Ok cs)
    /\ console w' = console w.
Proof.
  intros Hq Hd. unfold buildClubhouseStory. cbv zeta.
  rewrite bind_run, buildComments_run.
  destruct (comments_of_dated UserMap GetCreator um card Hd) as (l & ->).
  destruct (AddCommentWithTrelloLink opts); rewrite bind_run.
  - destruct (buildLinkFiles_silent card opts (set_ticks (S (ticks w)) w) Hq)
      as (w' & ids & -> & Hc).
    do 2 eexists. split; [reflexivity|exact Hc].
  - destruct (buildLinkFiles_silent card opts w Hq) as (w' & ids & -> & Hc).
    do 2 eexists. split; [reflexivity|exact Hc].
Qed.

Lemma report_loop snap opts um cards w :
  faults w = [] -> Forall dated cards ->
  List.NoDup (map ch.Story.ID snap) ->
  List.NoDup (map Card.Name cards) ->
  (forall c s, In c cards -> In s snap -> ch.Story.Name s = Card.Name c ->
               In s (stories w)) ->
  exists w',
    for_each cards
      (fun c =>
         exec deleteMatchingStories snap opts c in
         let* cs := buildClubhouseStory UserMap GetCreator c opts um in
         let* '(st, err) := CreateStory cs in
         match err with
         | Some e => print (outputFormat (Card.ShortURL c) "Failed" e)
         | None =>
             print (outputFormat (Card.ShortURL c) "Success"
                      ("Story ID: " +:+ fmt_d (ch.Story.ID st)))
         end) w
    = (w', Ok tt)
    /\ console w' = console w ++ success_lines (next_story w) cards.
Proof.
  match goal with
  | |- context [for_each _ ?b] => set (body := b)
  end.
  revert w. induction cards as [|c r IH]; intros w Hq Hd Hids Hnames Hin.
  - exists w. cbn. now rewrite app_nil_r.
  - inversion Hd as [|? ? Hc Hr]; subst.
    cbn [map] in Hnames. apply NoDup_cons_iff in Hnames as [Hname Hnames].
    cbn [for_each]. rewrite bind_run. unfold body at 1. rewrite bind_run.
    destruct (deleteMatchingStories_silent snap opts c w Hq Hids)
      as (w1 & Hrun1 & Hc1).
    { intros s Hs Hn. apply (Hin c s); auto. now left. }
    destruct (deleteMatchingStories_quiet snap opts c w Hq)
      as (w1' & Hrun1' & Hq1 & Hn1 & Hs1).
    rewrite Hrun1 in Hrun1'. injection Hrun1' as <-. rewrite Hrun1.
    rewrite bind_run.
    destruct (buildClubhouseStory_silent c opts um w1 Hq1 Hc)
      as (w2 & cs & Hrun2 & Hc2).
    pose proof (buildClubhouseStory_run UserMap GetCreator c opts um w1) as Hb.
    destruct (comments_of_dated UserMap GetCreator um c Hc) as (l & El).
    rewrite El in Hb. destruct Hb as (w2' & ids & Hrun2' & Hs2 & Hn2 & Hq2).
    rewrite Hrun2 in Hrun2'. injection Hrun2' as <- ->. rewrite Hrun2.
    specialize (Hq2 Hq1).
    rewrite bind_run, (CreateStory_quiet _ w2 Hq2).
    cbn [ch.CreateStory.Name ch.CreateStory.ProjectID ch.Story.ID].
    match goal with
    | |- context [print ?line ?w3] =>
        change (print line w3) with (set_console (console w3 ++ [line]) w3, Ok tt);
        set (w4 := set_console (console w3 ++ [line]) w3)
    end.
    destruct (IH w4) as (w' & -> & Hc'); [exact Hq2|exact Hr|exact Hids
                                          |exact Hnames| |].
    + intros c' s Hc'' Hs Hn. cbn [w4 stories set_console set_stories].
      apply in_or_app. left. rewrite Hs2, Hs1. apply filter_In.
      split; [apply (Hin c' s); auto; now right|].
      apply negb_true_iff. unfold deleted_by.
      destruct (existsb _ snap) eqn:E; [|reflexivity].
      apply existsb_exists in E as (s' & Hs' & Hb).
      apply andb_true_iff in Hb as [Hb1 Hb2].
      apply String.eqb_eq in Hb1. apply Z.eqb_eq in Hb2.
      assert (s' = s) as -> by (eapply same_ID_same_story; eauto).
      exfalso. apply Hname. rewrite <- Hb1, Hn. now apply in_map.
    + exists w'. split; [reflexivity|]. rewrite Hc'.
      cbn [w4 console set_console set_stories next_story success_lines].
      rewrite Hc2, Hc1, Hn2, Hn1, <- app_assoc. reflexivity.
Qed.

(** X14: On a sound store, when no call fails, every comment has its date
    and the card names are pairwise distinct, the run prints its two
    header lines and then exactly one "Success" line per card, in the
    order of the cards, each with the card's URL and the identifier of
    its new story. *)
Theorem import_report (cards : list Card.t) (opts : ClubhouseOptions)
    (um : UserMap) (w : World) :
  store_ok w -> faults w = [] -> Forall dated cards ->
  List.NoDup (map Card.Name cards) ->
  exists w',
    ImportCardsIntoClubhouse UserMap GetCreator cards opts um w = (w', Ok tt)
    /\ console w'
       = console w
         ++ ["Importing trello cards into Clubhouse..." +:+ newline;
             outputFormat "Trello Card Link" "Import Status" "Error/Story ID"
             +:+ newline]
         ++ success_lines (next_story w) cards.
Proof.
  intros [Hnd Hlt] Hq Hd Hnames. unfold ImportCardsIntoClubhouse.
  rewrite bind_run. cbn [print]. rewrite bind_run. cbn [print].
  match goal with
  | |- context [bind (ListStories _) _ ?w0] => set (wp := w0)
  end.
  assert (Hqp : faults wp = []) by exact Hq.
  rewrite bind_run. unfold ListStories at 1.
  rewrite bind_run, (remote_fails_quiet wp Hqp).
  change (stories wp) with (stories w).
  destruct (report_loop
              (List.filter
                 (fun s => Z.eqb (ch.Story.ProjectID s) (Project_ID opts))
                 (stories w)) opts um cards wp Hqp Hd)
    as (w' & Hrun & Hc); [|exact Hnames| |].
  - now apply filter_map_NoDup.
  - intros c s _ Hs _. now apply filter_In in Hs.
  - exists w'. split; [exact Hrun|]. rewrite Hc.
    cbn [wp console set_console next_story]. now rewrite <- !app_assoc.
Qed.

End ReportFacts.

Lemma import_report_witness :
  exists w',
    ImportCardsIntoClubhouse (gmap string string) tableGetCreator
      [card_login; card_docs] sample_opts sample_users used_world = (w', Ok tt)
    /\ console w'
       = console used_world
         ++ ["Importing trello cards into Clubhouse..." +:+ newline;
             outputFormat "Trello Card Link" "Import Status" "Error/Story ID"
             +:+ newline]
         ++ success_lines (next_story used_world) [card_login; card_docs].
Proof.
  apply (import_report (gmap string string) tableGetCreator
           [card_login; card_docs] sample_opts sample_users used_world).
  - split.
    + repeat constructor; simpl; intuition discriminate.
    + repeat constructor.
  - reflexivity.
  - repeat constructor; discriminate.
  - repeat constructor; simpl; intuition discriminate.
Defined.

(** *** What a run leaves in the store *)
Section StoreFacts.

Variable UserMap : Type.
Variable GetCreator : UserMap -> string -> string.

(** X15: On a sound store, when no call fails and every comment has its
    date, a run never touches a story of another project or of a name
    that no card carries, and it leaves under the name of each card as
    many records as the batch has cards of that name: the records are
    counted per card, not per name. *)
Theorem import_one_record_per_card (cards : list Card.t)
    (opts : ClubhouseOptions) (um : UserMap) (w : World) :
  store_ok w -> faults w = [] -> Forall dated cards ->
  exists w',
    ImportCardsIntoClubhouse UserMap GetCreator cards opts um w = (w', Ok tt)
    /\ (forall t, In t (stories w) ->
                  collides (Project_ID opts) cards t = false ->
                  In t (stories w'))
    /\ (forall c, In c cards ->
                  length (records_named (Card.Name c) (Project_ID opts) w')
                  = length (List.filter
                              (fun c' => String.eqb (Card.Name c') (Card.Name c))
                              cards)).
Proof.
  intros Hok Hq Hd.
  destruct (import_run UserMap GetCreator opts um cards w Hok Hq Hd)
    as (w' & Hrun & _ & _ & Hs).
  exists w'. split; [exact Hrun|]. split.
  - intros t Ht Hcol. rewrite Hs. apply in_or_app. left.
    apply filter_In. split; [exact Ht|]. now rewrite Hcol.
  - intros c Hc. unfold records_named.
    rewrite Hs, List.filter_app, List.length_app, filter_filter, filter_none.
    + cbn [length]. apply created_named.
    + intros t _. unfold collides.
      destruct (Z.eqb (ch.Story.ProjectID t) (Project_ID opts)); [|reflexivity].
      destruct (String.eqb_spec (ch.Story.Name t) (Card.Name c)) as [E|E];
        [|now rewrite andb_false_r].
      assert (existsb (fun c0 => String.eqb (ch.Story.Name t) (Card.Name c0)) cards
              = true) as ->.
      { apply existsb_exists. exists c. split; [exact Hc|].
        now apply String.eqb_eq. }
      reflexivity.
Qed.

End StoreFacts.

Lemma import_one_record_per_card_witness :
  exists w',
    ImportCardsIntoClubhouse (gmap string string) tableGetCreator
      [card_login; card_login_again] sample_opts sample_users used_world
    = (w', Ok tt)
    /\ (forall t, In t (stories used_world) ->
                  collides (Project_ID sample_opts)
                    [card_login; card_login_again] t = false ->
                  In t (stories w'))
    /\ (forall c, In c [card_login; card_login_again] ->
                  length (records_named (Card.Name c) (Project_ID sample_opts) w')
                  = length (List.filter
                              (fun c' => String.eqb (Card.Name c') (Card.Name c))
                              [card_login; card_login_again])).
Proof.
  apply (import_one_record_per_card (gmap string string) tableGetCreator
           [card_login; card_login_again] sample_opts sample_users used_world).
  - split.
    + repeat constructor; simpl; intuition discriminate.
    + repeat constructor.
  - reflexivity.
  - repeat constructor; discriminate.
Defined.
